(** * Job matching: lexical, semantic and hybrid scoring

    A shallow embedding of [app/job_matcher.py] and [app/semantic_matcher.py].

    - A Python [str] is a sequence of Unicode code points: [str := list N].
    - A Python [float] is read as the rational it denotes ([Q]); [round]
      returns reduced fractions, so that a rounded score has one
      representation.  The arithmetic of the two modules on floats rounds
      to binary64 as Python does.
    - The two third-party packages the modules call (scikit-learn and
      sentence-transformers) are interfaces: a record of the entry points
      the code uses, and a record of the laws the proofs rely on.  A
      reference implementation of the scikit-learn interface is given and
      shown to satisfy the laws.
    - Calls into those packages are recorded in a trace, the lazily loaded
      model lives in the state, exceptions are results: the matchers run in
      a state-and-exception monad. *)

From Stdlib Require Import List Bool Arith ZArith NArith QArith Qabs Qminmax Qround.
From Stdlib Require Import String Ascii Lia Lqa Permutation Sorting.Sorted.
From Stdlib Require DecimalString.
Import ListNotations.

Set Implicit Arguments.
Local Open Scope Q_scope.

(* ------------------------------------------------------------------ *)
(** * Python strings *)

Module Py.

(** A string is the list of its code points. *)
Definition str := list N.

(** A literal of the Python source, written as a Rocq string. *)
Definition lit (s : string) : str := map N_of_ascii (list_ascii_of_string s).

Definition str_eq_dec : forall a b : str, {a = b} + {a <> b} :=
  list_eq_dec N.eq_dec.

Definition str_eqb (a b : str) : bool :=
  if str_eq_dec a b then true else false.

(** Truthiness of a string: [not text] holds of the empty string only. *)
Definition not_ (t : str) : bool :=
  match t with [] => true | _ :: _ => false end.

Definition between (lo hi c : N) : bool := ((lo <=? c) && (c <=? hi))%N.

(** [str.isspace] of one code point, which is also the class [\s] of [re]
    on [str] patterns. *)
Definition isspace (c : N) : bool :=
  between 9 13 c || between 28 32 c || (c =? 133)%N || (c =? 160)%N
  || (c =? 5760)%N || between 8192 8202 c || (c =? 8232)%N || (c =? 8233)%N
  || (c =? 8239)%N || (c =? 8287)%N || (c =? 12288)%N.

(** The class [[a-z0-9]]. *)
Definition is_az09 (c : N) : bool := between 97 122 c || between 48 57 c.

(** ASCII letters and digits of either case. *)
Definition is_ascii_alnum (c : N) : bool :=
  between 65 90 c || between 97 122 c || between 48 57 c.

(** [str.lower] on one code point.  ASCII and Latin-1 capitals move by 32;
    U+0130 becomes "i" followed by U+0307, and U+212A (the Kelvin sign)
    becomes "k": these are the only code points above 127 whose lowercase
    holds an ASCII letter.  Every other cased letter lowercases to a code
    point that is neither in [[a-z0-9]] nor white space; it is left in
    place here, the first substitution of [_preprocess] blanks it in both
    cases. *)
Definition lower_cp (c : N) : list N :=
  if between 65 90 c then [c + 32]%N
  else if between 192 222 c && negb (c =? 215)%N then [c + 32]%N
  else if (c =? 304)%N then [105; 775]%N
  else if (c =? 8490)%N then [107]%N
  else [c].

Definition lower (t : str) : str := flat_map lower_cp t.

(** [re.sub(r"[^a-z0-9\s]", " ", text)] *)
Definition sub_non_alnum (t : str) : str :=
  map (fun c => if is_az09 c || isspace c then c else 32%N) t.

(** [re.sub(r"\s+", " ", text)]: [in_run] tells that the previous code
    point was white space, whose run has already been replaced. *)
Fixpoint sub_spaces_from (in_run : bool) (t : str) : str :=
  match t with
  | [] => []
  | c :: r =>
      if isspace c
      then (if in_run then sub_spaces_from true r
            else 32%N :: sub_spaces_from true r)
      else c :: sub_spaces_from false r
  end.

Definition sub_spaces (t : str) : str := sub_spaces_from false t.

Fixpoint lstrip (t : str) : str :=
  match t with
  | [] => []
  | c :: r => if isspace c then lstrip r else t
  end.

(** [str.strip()] *)
Definition strip (t : str) : str := rev (lstrip (rev (lstrip t))).

(** [seq[:n]] for any integer [n]: a negative bound counts from the end. *)
Definition slice_to {A} (l : list A) (n : Z) : list A :=
  if (0 <=? n)%Z then firstn (Z.to_nat n) l
  else firstn (List.length l - Z.to_nat (- n)) l.

(** ** Dictionaries

    A [dict] keeps its keys in insertion order; assigning to a key already
    present keeps its place. *)
Definition dict (V : Type) := list (str * V).

Fixpoint dict_set {V} (d : dict V) (k : str) (v : V) : dict V :=
  match d with
  | [] => [(k, v)]
  | (k', v') :: r =>
      if str_eq_dec k k' then (k', v) :: r else (k', v') :: dict_set r k v
  end.

Fixpoint dict_get {V} (d : dict V) (k : str) (default : V) : V :=
  match d with
  | [] => default
  | (k', v') :: r => if str_eq_dec k k' then v' else dict_get r k default
  end.

Definition dict_keys {V} (d : dict V) : list str := map fst d.

(** [dict(zip(keys, values))] *)
Definition dict_zip {V} (keys : list str) (values : list V) : dict V :=
  fold_left (fun d kv => dict_set d (fst kv) (snd kv)) (combine keys values) [].

(** [sorted(l, key=key, reverse=True)]: descending, and stable: items with
    equal keys keep the order they had. *)
Fixpoint insert_desc {A} (key : A -> Q) (x : A) (l : list A) : list A :=
  match l with
  | [] => [x]
  | y :: r =>
      if Qlt_le_dec (key x) (key y) then y :: insert_desc key x r
      else x :: l
  end.

Fixpoint sorted_reverse {A} (key : A -> Q) (l : list A) : list A :=
  match l with
  | [] => []
  | x :: r => insert_desc key x (sorted_reverse key r)
  end.

(** ** Floats *)

(** Nearest integer, ties to the even one. *)
Definition round_half_even (q : Q) : Z :=
  let r := Qred q in
  let n := Qnum r in
  let d := Zpos (Qden r) in
  let fl := (n / d)%Z in
  match (2 * (n mod d) ?= d)%Z with
  | Lt => fl
  | Gt => (fl + 1)%Z
  | Eq => if Z.even fl then fl else (fl + 1)%Z
  end.

(** [round(x, ndigits)] *)
Definition round (x : Q) (ndigits : nat) : Q :=
  let p := Pos.pow 10 (Pos.of_nat ndigits) in
  match ndigits with
  | O => Qred (round_half_even x # 1)
  | S _ => Qred (round_half_even (x * (Zpos p # 1)) # p)
  end.

(** [min(a, b)] returns [a] unless [b < a]. *)
Definition min (a b : Q) : Q := if Qlt_le_dec b a then b else a.

(** ** Binary floating point

    A [float] is a binary64 number.  The records of the matchers hold a
    float as a rational: the one it denotes, or a decimal that stands for
    the float nearest to it, as a score rounded to two decimals does, or
    the literal [0.6].  [float_of] is that reading: the float nearest to a
    rational, ties to the even significand, with 53 bits of significand
    and subnormal numbers below [2^-1022].  Arithmetic on floats reads its
    operands and rounds its exact result.  Numbers beyond the largest
    float, where Python has [inf], are out of the reach of scores and are
    rounded like the others. *)

Definition pow2 (e : Z) : Q :=
  if (0 <=? e)%Z then inject_Z (2 ^ e) else 1 # Z.to_pos (2 ^ (- e)).

(** The exponent of the unit in the last place of the float nearest to
    [q], which is not 0. *)
Definition ulp_exponent (q : Q) : Z :=
  let E := (Z.log2 (Z.abs (Qnum q)) - Z.log2 (Zpos (Qden q)))%Z in
  let e := if Qle_bool (pow2 E) (Qabs q) then (E - 52)%Z else (E - 53)%Z in
  Z.max e (-1074).

Definition float_of (q : Q) : Q :=
  let q := Qred q in
  if Qeq_bool q 0 then 0
  else
    let e := ulp_exponent q in
    Qred (inject_Z (round_half_even (q / pow2 e)) * pow2 e).

(** [x * y], [x + y] and [x - y] on floats. *)
Definition float_mul (x y : Q) : Q := float_of (float_of x * float_of y).
Definition float_add (x y : Q) : Q := float_of (float_of x + float_of y).
Definition float_sub (x y : Q) : Q := float_of (float_of x - float_of y).

Definition digits (n : Z) : str :=
  lit (DecimalString.NilZero.string_of_uint (N.to_uint (Z.to_N n))).

Definition sign (x : Q) : str := if Qlt_le_dec x 0 then lit "-" else [].

(** [format(x, ".1f")]: the decimal of one digit nearest to the float. *)
Definition format_1f (x : Q) : str :=
  let x := float_of x in
  let k := Z.abs (round_half_even (x * 10)) in
  sign x ++ digits (k / 10) ++ lit "." ++ digits (k mod 10).

(** [repr(x)] of a float nearest to a decimal with at most two fractional
    digits, which is what [round(_, 2)] returns and what the literal
    [100.0] is: the shortest decimal that reads back, with at least one
    fractional digit. *)
Definition repr (x : Q) : str :=
  let k := Z.abs (round_half_even (x * 100)) in
  let frac := (k mod 100)%Z in
  sign x ++ digits (k / 100) ++ lit "." ++
  (if (frac mod 10 =? 0)%Z then digits (frac / 10)
   else if (frac <? 10)%Z then lit "0" ++ digits frac
   else digits frac).

End Py.

Import Py.

(* ------------------------------------------------------------------ *)
(** * Text preprocessing ([job_matcher._preprocess]) *)

Definition _preprocess (text : str) : str :=
  let text := lower text in
  let text := sub_non_alnum text in
  let text := strip (sub_spaces text) in
  text.

(* ------------------------------------------------------------------ *)
(** * Exceptions, effects and the two packages *)

Inductive exn := ValueError | OSError | RuntimeError.

Inductive outcome (A : Type) :=
| Return (a : A)
| Raise (e : exn).
Arguments Raise {A} e.

(** Calls that leave the two modules. *)
Inductive event :=
| FitTransform (max_features : nat) (sublinear_tf : bool) (docs : str * str)
| LoadModel
| Encode (docs : str * str).

(** A loaded sentence-embedding model is its [encode] method. *)
Definition SentenceTransformer := str -> list Q.

(** The process state: the module-level [_model] of [semantic_matcher] and
    the calls made so far. *)
Record world := World {
  _model : option SentenceTransformer;
  trace : list event
}.

Definition log (ev : event) (w : world) : world :=
  World (_model w) (trace w ++ [ev]).

Definition M (A : Type) := world -> outcome A * world.

Definition ret {A} (a : A) : M A := fun w => (Return a, w).

Definition bind {A B} (c : M A) (k : A -> M B) : M B :=
  fun w =>
    match c w with
    | (Return a, w') => k a w'
    | (Raise e, w') => (Raise e, w')
    end.

Notation "x <- c ;; k" := (bind c (fun x => k))
  (at level 61, c at next level, right associativity).

(** [try: x = c  except ValueError: return handler] followed by [k x]. *)
Definition try_except_ValueError {A B} (c : M A) (handler : M B) (k : A -> M B)
  : M B :=
  fun w =>
    match c w with
    | (Return a, w') => k a w'
    | (Raise ValueError, w') => handler w'
    | (Raise e, w') => (Raise e, w')
    end.

(** A fitted two-document TF-IDF matrix: the feature names and one row of
    weights for each document. *)
Definition tfidf := (list str * list Q * list Q)%type.

(** What the modules use of scikit-learn and of numpy below it.
    [fit_transform max_features sublinear_tf (doc0, doc1)] is
    [TfidfVectorizer(stop_words="english", max_features=max_features,
    ngram_range=(1, 2), sublinear_tf=sublinear_tf).fit_transform([doc0, doc1])]
    together with [get_feature_names_out()]; [build_analyzer] is the
    analyzer of that vectorizer: the unigrams and bigrams left of a document
    after tokenization and stop-word removal. *)
Record Sklearn := {
  build_analyzer : str -> list str;
  fit_transform : nat -> bool -> str * str -> exn + tfidf;
  sqrt : Q -> Q
}.

Definition Qgtb (a b : Q) : bool := negb (Qle_bool a b).

Definition sum (v : list Q) : Q := fold_right Qplus 0 v.

Definition dot (a b : list Q) : Q :=
  sum (map (fun p => fst p * snd p) (combine a b)).

(** [sklearn.preprocessing.normalize] with the l2 norm on one row: the row
    is divided by its length, a zero length being replaced by 1.  Both the
    vectorizer and [cosine_similarity] scale rows with it. *)
Definition row_norm (sqrt : Q -> Q) (v : list Q) : Q :=
  let n := sqrt (sum (map (fun x => x * x) v)) in
  if Qeq_bool n 0 then 1 else n.

Definition normalize (sqrt : Q -> Q) (v : list Q) : list Q :=
  map (fun x => x / row_norm sqrt v) v.

Definition all_zero (v : list Q) : Prop := Forall (fun x => x == 0) v.
Definition nonneg (v : list Q) : Prop := Forall (fun x => 0 <= x) v.

(** Documented behaviour of scikit-learn the proofs rely on. *)
Record SklearnOk (sk : Sklearn) : Prop := {
  (** a document without text has no terms *)
  analyze_empty : build_analyzer sk [] = [];
  (** fitting fails exactly on an empty vocabulary, whatever the cap on the
      features and the term-frequency scaling *)
  fit_raises : forall m s d0 d1, (0 < m)%nat ->
    (exists e, fit_transform sk m s (d0, d1) = inl e) <->
    (build_analyzer sk d0 = [] /\ build_analyzer sk d1 = []);
  (** and then with [ValueError] *)
  fit_ValueError : forall m s d e,
    fit_transform sk m s d = inl e -> e = ValueError;
  (** one weight per feature and document, no feature twice *)
  fit_shape : forall m s d names v0 v1,
    fit_transform sk m s d = inr (names, v0, v1) ->
    List.length v0 = List.length names /\
    List.length v1 = List.length names /\ NoDup names;
  (** weights are not negative *)
  fit_nonneg : forall m s d names v0 v1,
    fit_transform sk m s d = inr (names, v0, v1) -> nonneg v0 /\ nonneg v1;
  (** a feature has weight in a document only if it is a term of it *)
  fit_support : forall m s d0 d1 names v0 v1,
    fit_transform sk m s (d0, d1) = inr (names, v0, v1) ->
    forall i t x, nth_error names i = Some t ->
      (nth_error v0 i = Some x -> 0 < x -> In t (build_analyzer sk d0)) /\
      (nth_error v1 i = Some x -> 0 < x -> In t (build_analyzer sk d1));
  sqrt_nonneg : forall x, 0 <= sqrt sk x
}.

(* ------------------------------------------------------------------ *)
(** * Result records *)

Record MatchResult := {
  score : Q;
  top_keywords : list str;
  analysis : str
}.

Record SemanticResult := {
  semantic_score : Q;
  embedding_distance : Q
}.

Record HybridResult := {
  hybrid_score : Q;
  hybrid_semantic_score : Q;
  keyword_score : Q;
  hybrid_top_keywords : list str;
  hybrid_analysis : str
}.

(* ------------------------------------------------------------------ *)
(** * The matchers *)

Section Matchers.

Variable sk : Sklearn.

(** The outcome of [SentenceTransformer('all-MiniLM-L6-v2')]: a model, or
    the exception raised when it cannot be had. *)
Variable load_SentenceTransformer : exn + SentenceTransformer.

(** [sklearn.metrics.pairwise.cosine_similarity] on one row against one. *)
Definition cosine_similarity (x y : list Q) : Q :=
  dot (normalize (sqrt sk) x) (normalize (sqrt sk) y).

(** [TfidfVectorizer(...).fit_transform([doc0, doc1])] *)
Definition vectorize (max_features : nat) (sublinear_tf : bool)
    (docs : str * str) : M tfidf :=
  fun w =>
    let w' := log (FitTransform max_features sublinear_tf docs) w in
    match fit_transform sk max_features sublinear_tf docs with
    | inl e => (Raise e, w')
    | inr m => (Return m, w')
    end.

(** ** [job_matcher._extract_top_keywords] *)
Definition _extract_top_keywords (resume_text job_description : str)
    (top_n : Z) : M (list str) :=
  tfidf_matrix <- vectorize 500 false (resume_text, job_description) ;;
  let '(feature_names, row0, row1) := tfidf_matrix in
  let resume_scores := dict_zip feature_names row0 in
  let job_scores := dict_zip feature_names row1 in
  let common :=
    fold_left
      (fun (common : dict Q) word =>
         let r_score := dict_get resume_scores word 0 in
         let j_score := dict_get job_scores word 0 in
         if Qgtb r_score 0 && Qgtb j_score 0
         then dict_set common word (float_add r_score j_score)
         else common)
      feature_names [] in
  let sorted_keywords :=
    sorted_reverse (fun word => dict_get common word 0) (dict_keys common) in
  ret (slice_to sorted_keywords top_n).

Definition excellent_analysis (score : Q) : str :=
  lit "Excellent match (" ++ repr score ++
  lit "%)! Your resume aligns strongly with the job requirements. Fine-tune specific metrics and achievements.".

Definition good_analysis (score : Q) : str :=
  lit "Good match (" ++ repr score ++
  lit "%). Your resume covers many requirements. Consider adding missing keywords and quantifiable results.".

Definition moderate_analysis (score : Q) : str :=
  lit "Moderate match (" ++ repr score ++
  lit "%). There are notable gaps. Focus on incorporating more job-specific terminology and relevant experience.".

Definition low_analysis (score : Q) : str :=
  lit "Low match (" ++ repr score ++
  lit "%). Significant gaps exist between your resume and the job description. Consider tailoring your resume specifically for this role.".

Definition insufficient_result : MatchResult :=
  {| score := 0; top_keywords := [];
     analysis := lit "Insufficient text provided for analysis." |}.

Definition no_content_result : MatchResult :=
  {| score := 0; top_keywords := [];
     analysis := lit "Could not extract meaningful content for comparison." |}.

(** ** [job_matcher.calculate_match_score] *)
Definition calculate_match_score (resume_text job_description : str)
  : M MatchResult :=
  if not_ resume_text || not_ job_description then ret insufficient_result
  else
    let clean_resume := _preprocess resume_text in
    let clean_job := _preprocess job_description in
    try_except_ValueError
      (vectorize 1000 true (clean_resume, clean_job))
      (ret no_content_result)
      (fun tfidf_matrix =>
         let '(_, row0, row1) := tfidf_matrix in
         let similarity := cosine_similarity row0 row1 in
         let score := round (float_mul similarity 100) 2 in
         let score := min score 100 in
         top_keywords <- _extract_top_keywords clean_resume clean_job 10 ;;
         let analysis :=
           if Qle_bool 80 score then excellent_analysis score
           else if Qle_bool 60 score then good_analysis score
           else if Qle_bool 40 score then moderate_analysis score
           else low_analysis score in
         ret {| score := score; top_keywords := top_keywords;
                analysis := analysis |}).

(** ** [job_matcher.get_missing_keywords] *)
Definition get_missing_keywords (resume_text job_description : str)
    (top_n : Z) : M (list str) :=
  let clean_resume := _preprocess resume_text in
  let clean_job := _preprocess job_description in
  try_except_ValueError
    (vectorize 500 false (clean_resume, clean_job))
    (ret [])
    (fun tfidf_matrix =>
       let '(feature_names, row0, row1) := tfidf_matrix in
       let resume_scores := dict_zip feature_names row0 in
       let job_scores := dict_zip feature_names row1 in
       let missing :=
         fold_left
           (fun (missing : dict Q) word =>
              if Qeq_bool (dict_get resume_scores word 0) 0
                 && Qgtb (dict_get job_scores word 0) 0
              then dict_set missing word (dict_get job_scores word 0)
              else missing)
           feature_names [] in
       let sorted_missing :=
         sorted_reverse (fun word => dict_get missing word 0)
           (dict_keys missing) in
       ret (slice_to sorted_missing top_n)).

(** ** [semantic_matcher._get_model] *)
Definition _get_model : M SentenceTransformer :=
  fun w =>
    match _model w with
    | Some model => (Return model, w)
    | None =>
        let w' := log LoadModel w in
        match load_SentenceTransformer with
        | inl e => (Raise e, w')
        | inr model => (Return model, World (Some model) (trace w'))
        end
    end.

(** [model.encode([a, b])] *)
Definition encode (model : SentenceTransformer) (docs : str * str)
  : M (list Q * list Q) :=
  fun w => (Return (model (fst docs), model (snd docs)), log (Encode docs) w).

(** ** [semantic_matcher.calculate_semantic_match] *)
Definition calculate_semantic_match (resume_text job_description : str)
  : M SemanticResult :=
  if not_ resume_text || not_ job_description
  then ret {| semantic_score := 0; embedding_distance := 1 |}
  else
    model <- _get_model ;;
    embeddings <- encode model (resume_text, job_description) ;;
    let similarity := cosine_similarity (fst embeddings) (snd embeddings) in
    let score := float_mul similarity 100 in
    ret {| semantic_score := min score 100;
           embedding_distance := float_sub 1 similarity |}.

Definition hybrid_excellent (h s k : Q) : str :=
  lit "Excellent match (" ++ format_1f h ++
  lit "%)! Strong semantic alignment (semantic: " ++ format_1f s ++
  lit "%, keywords: " ++ format_1f k ++
  lit "%). Your resume aligns well with the job requirements.".

Definition hybrid_good (h s k : Q) : str :=
  lit "Good match (" ++ format_1f h ++
  lit "%). Semantic similarity: " ++ format_1f s ++
  lit "%, Keyword overlap: " ++ format_1f k ++
  lit "%. Consider adding more relevant keywords to improve further.".

Definition hybrid_moderate (h s k : Q) : str :=
  lit "Moderate match (" ++ format_1f h ++
  lit "%). Semantic: " ++ format_1f s ++
  lit "%, Keywords: " ++ format_1f k ++
  lit "%. Focus on incorporating more job-specific terminology and relevant experience.".

Definition hybrid_low (h : Q) : str :=
  lit "Low match (" ++ format_1f h ++
  lit "%). Significant gaps exist. Consider tailoring your resume more closely to the job description with relevant keywords and context.".

(** ** [semantic_matcher.calculate_hybrid_match_score] *)
Definition calculate_hybrid_match_score (resume_text job_description : str)
  : M HybridResult :=
  semantic <- calculate_semantic_match resume_text job_description ;;
  tfidf <- calculate_match_score resume_text job_description ;;
  let hybrid_score :=
    float_add (float_mul (semantic_score semantic) (6 # 10))
      (float_mul (score tfidf) (4 # 10)) in
  let analysis :=
    if Qle_bool 80 hybrid_score
    then hybrid_excellent hybrid_score (semantic_score semantic) (score tfidf)
    else if Qle_bool 60 hybrid_score
    then hybrid_good hybrid_score (semantic_score semantic) (score tfidf)
    else if Qle_bool 40 hybrid_score
    then hybrid_moderate hybrid_score (semantic_score semantic) (score tfidf)
    else hybrid_low hybrid_score in
  ret {| hybrid_score := round hybrid_score 2;
         hybrid_semantic_score := round (float_of (semantic_score semantic)) 2;
         keyword_score := round (float_of (score tfidf)) 2;
         hybrid_top_keywords := top_keywords tfidf;
         hybrid_analysis := analysis |}.

End Matchers.

(* ------------------------------------------------------------------ *)
(** * A reference scikit-learn

    The vectorizer the two modules configure, on two documents, with exact
    rational arithmetic: the logarithm and the square root are rational
    approximations, the square root being exact on squares of rationals. *)

Module RefSklearn.

(** The class [\w] on the text the matchers pass on, which [_preprocess]
    has reduced to [[a-z0-9 ]]: ASCII letters, digits and the underscore. *)
Definition is_word (c : N) : bool := is_ascii_alnum c || (c =? 95)%N.

(** A run of word characters is a token when it has two of them at least;
    [cur] holds the run, last character first. *)
Definition flush (cur : str) : list str :=
  match cur with
  | _ :: _ :: _ => [rev cur]
  | _ => []
  end.

(** [re.findall(r"(?u)\b\w\w+\b", doc)] *)
Fixpoint tokens_from (cur : str) (doc : str) : list str :=
  match doc with
  | [] => flush cur
  | c :: r =>
      if is_word c then tokens_from (c :: cur) r
      else flush cur ++ tokens_from [] r
  end.

Definition tokenize (doc : str) : list str := tokens_from [] doc.

(** [sklearn.feature_extraction.text.ENGLISH_STOP_WORDS] *)
Definition ENGLISH_STOP_WORDS : list str := map lit [
  "a"; "about"; "above"; "across"; "after"; "afterwards"; "again"; "against";
  "all"; "almost"; "alone"; "along"; "already"; "also"; "although"; "always";
  "am"; "among"; "amongst"; "amoungst"; "amount"; "an"; "and"; "another";
  "any"; "anyhow"; "anyone"; "anything"; "anyway"; "anywhere"; "are";
  "around"; "as"; "at"; "back"; "be"; "became"; "because"; "become";
  "becomes"; "becoming"; "been"; "before"; "beforehand"; "behind"; "being";
  "below"; "beside"; "besides"; "between"; "beyond"; "bill"; "both";
  "bottom"; "but"; "by"; "call"; "can"; "cannot"; "cant"; "co"; "con";
  "could"; "couldnt"; "cry"; "de"; "describe"; "detail"; "do"; "done";
  "down"; "due"; "during"; "each"; "eg"; "eight"; "either"; "eleven"; "else";
  "elsewhere"; "empty"; "enough"; "etc"; "even"; "ever"; "every"; "everyone";
  "everything"; "everywhere"; "except"; "few"; "fifteen"; "fifty"; "fill";
  "find"; "fire"; "first"; "five"; "for"; "former"; "formerly"; "forty";
  "found"; "four"; "from"; "front"; "full"; "further"; "get"; "give"; "go";
  "had"; "has"; "hasnt"; "have"; "he"; "hence"; "her"; "here"; "hereafter";
  "hereby"; "herein"; "hereupon"; "hers"; "herself"; "him"; "himself"; "his";
  "how"; "however"; "hundred"; "i"; "ie"; "if"; "in"; "inc"; "indeed";
  "interest"; "into"; "is"; "it"; "its"; "itself"; "keep"; "last"; "latter";
  "latterly"; "least"; "less"; "ltd"; "made"; "many"; "may"; "me";
  "meanwhile"; "might"; "mill"; "mine"; "more"; "moreover"; "most"; "mostly";
  "move"; "much"; "must"; "my"; "myself"; "name"; "namely"; "neither";
  "never"; "nevertheless"; "next"; "nine"; "no"; "nobody"; "none"; "noone";
  "nor"; "not"; "nothing"; "now"; "nowhere"; "of"; "off"; "often"; "on";
  "once"; "one"; "only"; "onto"; "or"; "other"; "others"; "otherwise"; "our";
  "ours"; "ourselves"; "out"; "over"; "own"; "part"; "per"; "perhaps";
  "please"; "put"; "rather"; "re"; "same"; "see"; "seem"; "seemed";
  "seeming"; "seems"; "serious"; "several"; "she"; "should"; "show"; "side";
  "since"; "sincere"; "six"; "sixty"; "so"; "some"; "somehow"; "someone";
  "something"; "sometime"; "sometimes"; "somewhere"; "still"; "such";
  "system"; "take"; "ten"; "than"; "that"; "the"; "their"; "them";
  "themselves"; "then"; "thence"; "there"; "thereafter"; "thereby";
  "therefore"; "therein"; "thereupon"; "these"; "they"; "thick"; "thin";
  "third"; "this"; "those"; "though"; "three"; "through"; "throughout";
  "thru"; "thus"; "to"; "together"; "too"; "top"; "toward"; "towards";
  "twelve"; "twenty"; "two"; "un"; "under"; "until"; "up"; "upon"; "us";
  "very"; "via"; "was"; "we"; "well"; "were"; "what"; "whatever"; "when";
  "whence"; "whenever"; "where"; "whereafter"; "whereas"; "whereby";
  "wherein"; "whereupon"; "wherever"; "whether"; "which"; "while"; "whither";
  "who"; "whoever"; "whole"; "whom"; "whose"; "why"; "will"; "with";
  "within"; "without"; "would"; "yet"; "you"; "your"; "yours"; "yourself";
  "yourselves" ]%string.

Definition is_stop_word (t : str) : bool :=
  existsb (str_eqb t) ENGLISH_STOP_WORDS.

(** The word bigrams: neighbours joined by one space. *)
Fixpoint bigrams (ts : list str) : list str :=
  match ts with
  | a :: ((b :: _) as r) => (a ++ 32%N :: b) :: bigrams r
  | _ => []
  end.

(** The analyzer for [stop_words="english", ngram_range=(1, 2)]: lowercase,
    tokenize, drop the stop words, then the words followed by the bigrams
    of what is left. *)
Definition analyzer (doc : str) : list str :=
  let toks := filter (fun t => negb (is_stop_word t)) (tokenize (lower doc)) in
  toks ++ bigrams toks.

(** Code point order, the order of [str]. *)
Fixpoint str_leb (a b : str) : bool :=
  match a, b with
  | [], _ => true
  | _ :: _, [] => false
  | x :: a', y :: b' =>
      if (x <? y)%N then true
      else if (y <? x)%N then false
      else str_leb a' b'
  end.

Fixpoint insert_str (x : str) (l : list str) : list str :=
  match l with
  | [] => [x]
  | y :: r => if str_leb x y then x :: l else y :: insert_str x r
  end.

Definition sorted_str (l : list str) : list str := fold_right insert_str [] l.

Definition term_count (terms : list str) (t : str) : nat :=
  count_occ str_eq_dec terms t.

Definition Qnat (n : nat) : Q := inject_Z (Z.of_nat n).

(** [max_features]: the terms most frequent over the corpus are kept, in
    the order of the vocabulary; among equally frequent terms the earlier
    ones of the vocabulary are kept. *)
Definition limit_features (max_features : nat) (vocabulary terms : list str)
  : list str :=
  sorted_str
    (firstn max_features
       (sorted_reverse (fun t => Qnat (term_count terms t)) vocabulary)).

(** The natural logarithm, by the first terms of
    [2 (z + z^3/3 + z^5/5 + ...)] at [z = (x - 1) / (x + 1)]. *)
Definition ref_ln (x : Q) : Q :=
  let z := (x - 1) / (x + 1) in
  let z2 := z * z in
  2 * z * (1 + z2 * ((1 # 3) + z2 * ((1 # 5) + z2 * ((1 # 7) + z2 * (1 # 9))))).

(** The square root to twelve decimals, rounded down; 0 below 0. *)
Definition ref_sqrt (q : Q) : Q :=
  let r := Qred q in
  Z.sqrt (Qnum r * Zpos (Qden r) * 10 ^ 24) # (Qden r * 10 ^ 12).

(** In how many of the two documents a term occurs. *)
Definition df (terms0 terms1 : list str) (t : str) : nat :=
  (if in_dec str_eq_dec t terms0 then 1 else 0) +
  (if in_dec str_eq_dec t terms1 then 1 else 0).

(** The smoothed inverse document frequency, for two documents. *)
Definition idf (terms0 terms1 : list str) (t : str) : Q :=
  ref_ln ((1 + 2) / (1 + Qnat (df terms0 terms1 t))) + 1.

Definition tf (sublinear_tf : bool) (count : nat) : Q :=
  match count with
  | O => 0
  | S _ => if sublinear_tf then ref_ln (Qnat count) + 1 else Qnat count
  end.

Definition row (sublinear_tf : bool) (terms0 terms1 names terms : list str)
  : list Q :=
  normalize ref_sqrt
    (map (fun t => tf sublinear_tf (term_count terms t) * idf terms0 terms1 t)
       names).

Definition ref_fit_transform (max_features : nat) (sublinear_tf : bool)
    (docs : str * str) : exn + tfidf :=
  let terms0 := analyzer (fst docs) in
  let terms1 := analyzer (snd docs) in
  let vocabulary := sorted_str (nodup str_eq_dec (terms0 ++ terms1)) in
  match limit_features max_features vocabulary (terms0 ++ terms1) with
  | [] => inl ValueError
  | names =>
      inr (names,
           row sublinear_tf terms0 terms1 names terms0,
           row sublinear_tf terms0 terms1 names terms1)
  end.

Definition ref_sklearn : Sklearn :=
  {| build_analyzer := analyzer;
     fit_transform := ref_fit_transform;
     sqrt := ref_sqrt |}.

End RefSklearn.

Import RefSklearn.

(* ------------------------------------------------------------------ *)
(** * Embedding models used in examples *)

(** A process that has loaded no model and called nothing yet. *)
Definition w0 : world := World None [].

(** A model that sends one text and all others to opposite directions. *)
Definition opposed_model : SentenceTransformer :=
  fun text => if str_eqb text (lit "chef") then [1; 0] else [-1 # 1; 0].

(** A model whose two directions are at an angle of cosine 31680/47522:
    [31680^2 + 35422^2 = 47522^2]. *)
Definition slanted_model : SentenceTransformer :=
  fun text => if str_eqb text (lit "Python") then [1; 0]
              else [31680 # 1; 35422 # 1].

(* ------------------------------------------------------------------ *)
(** * Keyword selection, in the words of the specification

    The columns of a fitted matrix are its features.  A column is missing
    from the resume when its weight is zero in the resume row and positive
    in the job row, and it is kept with its job weight; a column is common
    when its weight is positive in both rows, and it is kept with the sum
    of the two.  Columns are ranked by the weight kept, heaviest first. *)

Definition columns (names : list str) (resume_row job_row : list Q)
  : list (str * (Q * Q)) :=
  combine names (combine resume_row job_row).

Definition missing_columns (names : list str) (resume_row job_row : list Q)
  : list (str * Q) :=
  map (fun c => (fst c, snd (snd c)))
    (filter (fun c => Qeq_bool (fst (snd c)) 0 && Qgtb (snd (snd c)) 0)
       (columns names resume_row job_row)).

Definition common_columns (names : list str) (resume_row job_row : list Q)
  : list (str * Q) :=
  map (fun c => (fst c, float_add (fst (snd c)) (snd (snd c))))
    (filter (fun c => Qgtb (fst (snd c)) 0 && Qgtb (snd (snd c)) 0)
       (columns names resume_row job_row)).

Definition ranked (cols : list (str * Q)) : list str :=
  map fst (sorted_reverse snd cols).

(** Heaviest first. *)
Definition descending (cols : list (str * Q)) : Prop :=
  StronglySorted (fun a b => snd b <= snd a) cols.
(** The record the semantic matcher returns for the embeddings of a
    model. *)
Definition semantic_of (sk : Sklearn) (model : SentenceTransformer)
    (r j : str) : SemanticResult :=
  {| semantic_score :=
       min (float_mul (cosine_similarity sk (model r) (model j)) 100) 100;
     embedding_distance :=
       float_sub 1 (cosine_similarity sk (model r) (model j)) |}.

(** A process in which the model cannot be had. *)
Definition failing_loader : exn + SentenceTransformer := inl OSError.

(* ------------------------------------------------------------------ *)
(** * The match endpoint ([main.analyze_match]) *)

(** The request body.  Both fields are declared with [min_length=1]: a
    request with an empty field is refused before the endpoint runs. *)
Record MatchRequest := {
  resume_text : str;
  job_description : str
}.

Definition MatchRequest_valid (data : MatchRequest) : bool :=
  negb (not_ (resume_text data)) && negb (not_ (job_description data)).

Record MatchResponse := {
  response_score : Q;
  response_top_keywords : list str;
  missing_keywords : list str;
  response_analysis : str
}.

(** What an endpoint answers: its response, or the [HTTPException] it
    raises, with its status code and the exception whose text ends its
    detail. *)
Inductive answer (A : Type) :=
| Respond (a : A)
| HTTPException (status_code : nat) (exc : exn).
Arguments HTTPException {A} status_code exc.

Definition HTTP_500_INTERNAL_SERVER_ERROR : nat := 500.

(** [try: ... return MatchResponse(...)  except Exception as exc: raise
    HTTPException(500, ...)]; every exception of the model is an
    [Exception]. *)
Definition analyze_match (sk : Sklearn) (data : MatchRequest)
  : world -> answer MatchResponse * world :=
  fun w =>
    match
      (result <- calculate_match_score sk (resume_text data)
                   (job_description data) ;;
       missing <- get_missing_keywords sk (resume_text data)
                    (job_description data) 10 ;;
       ret {| response_score := score result;
              response_top_keywords := top_keywords result;
              missing_keywords := missing;
              response_analysis := analysis result |}) w
    with
    | (Return response, w') => (Respond response, w')
    | (Raise exc, w') => (HTTPException HTTP_500_INTERNAL_SERVER_ERROR exc, w')
    end.

(** A vectorizer that fails when it is capped at 500 features, and one
    that fails with another exception than [ValueError]: neither keeps
    the laws of scikit-learn, they show what the matchers do with such
    failures. *)
Definition keywords_failing_sklearn : Sklearn :=
  {| build_analyzer := analyzer;
     fit_transform := fun m s docs =>
       if (m =? 500)%nat then inl ValueError else ref_fit_transform m s docs;
     sqrt := ref_sqrt |}.

Definition crashing_sklearn : Sklearn :=
  {| build_analyzer := analyzer;
     fit_transform := fun _ _ _ => inl RuntimeError;
     sqrt := ref_sqrt |}.

(** A model with no negative component. *)
Definition positive_model : SentenceTransformer :=
  fun text => if str_eqb text (lit "chef") then [1; 0] else [3 # 1; 4 # 1].

(** A text in normal form: lowercase ASCII letters, digits and single
    spaces, with no space at either end. *)
Definition normal_form (t : str) : Prop :=
  Forall (fun c => is_az09 c = true \/ c = 32%N) t /\
  (forall a r, t <> a ++ 32%N :: 32%N :: r) /\
  (forall r, t <> 32%N :: r) /\
  (forall r, t <> r ++ [32%N]).

(** A model whose embeddings of two texts have the cosine 1/800: the
    norm of the second is 800. *)
Definition eighth_model : SentenceTransformer :=
  fun text => if str_eqb text (lit "chef") then [1; 0; 0; 0; 0; 0]
              else [1; 799 # 1; 39 # 1; 8 # 1; 3 # 1; 2 # 1].

(** One more documented behaviour of scikit-learn: a feature that is a
    term of a document has a positive weight in its row (its count, its
    inverse document frequency and the norm of the row are positive). *)
Definition TermsWeigh (sk : Sklearn) : Prop :=
  forall m s d0 d1 names v0 v1,
    fit_transform sk m s (d0, d1) = inr (names, v0, v1) ->
    forall i t x, nth_error names i = Some t ->
      (In t (build_analyzer sk d0) -> nth_error v0 i = Some x -> 0 < x) /\
      (In t (build_analyzer sk d1) -> nth_error v1 i = Some x -> 0 < x).

(* ------------------------------------------------------------------ *)
(** * Rounding and clamping *)

Lemma round_half_even_compat (x y : Q) :
  x == y -> round_half_even x = round_half_even y.
Proof.
  intros H. unfold round_half_even. now rewrite (Qred_complete x y H).
Qed.

Lemma round_compat (x y : Q) (n : nat) : x == y -> round x n = round y n.
Proof.
  intros H. destruct n as [|n]; unfold round.
  - now rewrite (round_half_even_compat H).
  - assert (E : x * (Z.pos (10 ^ Pos.of_nat (S n)) # 1)
                == y * (Z.pos (10 ^ Pos.of_nat (S n)) # 1)) by now rewrite H.
    now rewrite (round_half_even_compat E).
Qed.

Lemma round_half_even_nonneg (x : Q) : 0 <= x -> (0 <= round_half_even x)%Z.
Proof.
  intros H. unfold round_half_even.
  assert (Hn : (0 <= Qnum (Qred x))%Z).
  { assert (Hr : 0 <= Qred x) by now rewrite Qred_correct.
    unfold Qle in Hr. simpl in Hr. lia. }
  set (n := Qnum (Qred x)) in *. set (d := Z.pos (Qden (Qred x))).
  assert (Hfl : (0 <= n / d)%Z) by (apply Z.div_pos; lia).
  destruct (2 * (n mod d) ?= d)%Z; try destruct (Z.even (n / d)); lia.
Qed.

Lemma round_nonneg (x : Q) (n : nat) : 0 <= x -> 0 <= round x n.
Proof.
  intros H. destruct n as [|n]; unfold round; rewrite Qred_correct.
  - pose proof (round_half_even_nonneg H). unfold Qle. cbn [Qnum Qden]. lia.
  - assert (H' : 0 <= x * (Z.pos (10 ^ Pos.of_nat (S n)) # 1)).
    { apply Qmult_le_0_compat; [assumption | unfold Qle; simpl; lia]. }
    pose proof (round_half_even_nonneg H'). unfold Qle. cbn [Qnum Qden]. lia.
Qed.

Lemma float_of_compat (x y : Q) : x == y -> float_of x = float_of y.
Proof. intros H. unfold float_of. now rewrite (Qred_complete x y H). Qed.

Lemma float_of_zero (x : Q) : x == 0 -> float_of x = 0.
Proof. intros H. now rewrite (float_of_compat H). Qed.

Lemma pow2_pos (e : Z) : 0 < pow2 e.
Proof.
  unfold pow2. destruct (0 <=? e)%Z eqn:E; [|reflexivity].
  apply Z.leb_le in E. unfold Qlt, inject_Z. cbn [Qnum Qden].
  pose proof (Z.pow_pos_nonneg 2 e ltac:(lia) E). lia.
Qed.

Lemma float_of_nonneg (x : Q) : 0 <= x -> 0 <= float_of x.
Proof.
  intros H. unfold float_of. destruct (Qeq_bool (Qred x) 0); [apply Qle_refl|].
  rewrite Qred_correct. apply Qmult_le_0_compat.
  - assert (Hq : 0 <= Qred x / pow2 (ulp_exponent (Qred x))).
    { unfold Qdiv. apply Qmult_le_0_compat; [now rewrite Qred_correct|].
      apply Qinv_le_0_compat, Qlt_le_weak, pow2_pos. }
    pose proof (round_half_even_nonneg Hq). unfold Qle, inject_Z.
    cbn [Qnum Qden]. lia.
  - apply Qlt_le_weak, pow2_pos.
Qed.

Lemma float_mul_nonneg (x y : Q) : 0 <= x -> 0 <= y -> 0 <= float_mul x y.
Proof.
  intros Hx Hy. unfold float_mul. apply float_of_nonneg.
  apply Qmult_le_0_compat; now apply float_of_nonneg.
Qed.

Lemma float_mul_zero_l (x y : Q) : x == 0 -> float_mul x y = 0.
Proof.
  intros H. unfold float_mul. rewrite (float_of_zero H).
  apply float_of_zero. apply Qmult_0_l.
Qed.

Lemma min_le_r (a b : Q) : min a b <= b.
Proof. unfold min. destruct (Qlt_le_dec b a); [apply Qle_refl | assumption]. Qed.

Lemma min_le_l (a b : Q) : min a b <= a.
Proof.
  unfold min. destruct (Qlt_le_dec b a); [now apply Qlt_le_weak | apply Qle_refl].
Qed.

Lemma min_glb (c a b : Q) : c <= a -> c <= b -> c <= min a b.
Proof. intros. unfold min. now destruct (Qlt_le_dec b a). Qed.

(* ------------------------------------------------------------------ *)
(** * Rows of weights *)

Lemma sum_nonneg (v : list Q) : nonneg v -> 0 <= sum v.
Proof.
  induction 1 as [|x v Hx _ IH]; simpl; [apply Qle_refl|].
  change 0 with (0 + 0). now apply Qplus_le_compat.
Qed.

Lemma dot_nonneg (a b : list Q) : nonneg a -> nonneg b -> 0 <= dot a b.
Proof.
  intros Ha. revert b. unfold dot.
  induction Ha as [|x a Hx _ IH]; intros b Hb; simpl; [apply Qle_refl|].
  destruct Hb as [|y b Hy Hb]; simpl; [apply Qle_refl|].
  change 0 with (0 + 0). apply Qplus_le_compat.
  - now apply Qmult_le_0_compat.
  - now apply IH.
Qed.

Lemma row_norm_nonneg (sqrt : Q -> Q) (v : list Q) :
  (forall x, 0 <= sqrt x) -> 0 <= row_norm sqrt v.
Proof.
  intros H. unfold row_norm. destruct (Qeq_bool _ 0); [discriminate | apply H].
Qed.

Lemma normalize_nonneg (sqrt : Q -> Q) (v : list Q) :
  (forall x, 0 <= sqrt x) -> nonneg v -> nonneg (normalize sqrt v).
Proof.
  intros Hs Hv. unfold normalize, nonneg. apply Forall_map.
  refine (Forall_impl _ _ Hv). intros x Hx. unfold Qdiv.
  apply Qmult_le_0_compat; [assumption|].
  apply Qinv_le_0_compat. now apply row_norm_nonneg.
Qed.

Lemma sum_all_zero (v : list Q) : all_zero v -> sum v == 0.
Proof.
  induction 1 as [|x v Hx _ IH]; simpl; [reflexivity|]. rewrite Hx, IH. reflexivity.
Qed.

Lemma dot_all_zero_l (a b : list Q) : all_zero a -> dot a b == 0.
Proof.
  intros Ha. revert b. unfold dot.
  induction Ha as [|x a Hx _ IH]; intros b; simpl; [reflexivity|].
  destruct b as [|y b]; simpl; [reflexivity|]. rewrite Hx, IH. ring.
Qed.

Lemma normalize_all_zero (sqrt : Q -> Q) (v : list Q) :
  all_zero v -> all_zero (normalize sqrt v).
Proof.
  intros Hv. unfold normalize, all_zero. apply Forall_map.
  refine (Forall_impl _ _ Hv). intros x Hx. simpl in Hx. rewrite Hx.
  unfold Qdiv. ring.
Qed.

Lemma cosine_similarity_nonneg (sk : Sklearn) (x y : list Q) :
  SklearnOk sk -> nonneg x -> nonneg y -> 0 <= cosine_similarity sk x y.
Proof.
  intros Hok Hx Hy. unfold cosine_similarity.
  pose proof (sqrt_nonneg Hok) as Hs.
  apply dot_nonneg; apply normalize_nonneg; assumption.
Qed.

Lemma cosine_similarity_zero_l (sk : Sklearn) (x y : list Q) :
  all_zero x -> cosine_similarity sk x y == 0.
Proof.
  intros Hx. unfold cosine_similarity.
  now apply dot_all_zero_l, normalize_all_zero.
Qed.
(* ------------------------------------------------------------------ *)
(** * Sorting *)

Section Sorting.
Context {A : Type}.
Variable key : A -> Q.

Lemma insert_desc_perm (x : A) (l : list A) :
  Permutation (insert_desc key x l) (x :: l).
Proof.
  induction l as [|y l IH]; simpl; [reflexivity|].
  destruct (Qlt_le_dec (key x) (key y)); [|reflexivity].
  rewrite IH. apply perm_swap.
Qed.

Lemma sorted_reverse_perm (l : list A) : Permutation (sorted_reverse key l) l.
Proof.
  induction l as [|x l IH]; simpl; [reflexivity|].
  rewrite insert_desc_perm. now constructor.
Qed.

Lemma sorted_reverse_In (l : list A) (x : A) :
  In x (sorted_reverse key l) <-> In x l.
Proof.
  split; apply Permutation_in;
    [apply sorted_reverse_perm | symmetry; apply sorted_reverse_perm].
Qed.

Lemma sorted_reverse_length (l : list A) :
  List.length (sorted_reverse key l) = List.length l.
Proof. apply Permutation_length, sorted_reverse_perm. Qed.

Lemma insert_desc_sorted (x : A) (l : list A) :
  StronglySorted (fun a b => key b <= key a) l ->
  StronglySorted (fun a b => key b <= key a) (insert_desc key x l).
Proof.
  induction 1 as [|y l Hs IH Hy]; simpl.
  - constructor; constructor.
  - destruct (Qlt_le_dec (key x) (key y)) as [Hlt|Hle].
    + constructor; [assumption|].
      rewrite Forall_forall. intros z Hz.
      apply (Permutation_in _ (insert_desc_perm x l)) in Hz.
      destruct Hz as [<-|Hz]; [now apply Qlt_le_weak|].
      rewrite Forall_forall in Hy. now apply Hy.
    + constructor; [now constructor|].
      constructor; [assumption|].
      refine (Forall_impl _ _ Hy). intros z Hz. now apply Qle_trans with (key y).
Qed.

Lemma sorted_reverse_sorted (l : list A) :
  StronglySorted (fun a b => key b <= key a) (sorted_reverse key l).
Proof.
  induction l as [|x l IH]; simpl; [constructor | now apply insert_desc_sorted].
Qed.

End Sorting.

Lemma insert_desc_map {A B : Type} (g : A -> B) (k : B -> Q) (h : A -> Q)
    (x : A) (l : list A) :
  k (g x) = h x -> (forall e, In e l -> k (g e) = h e) ->
  insert_desc k (g x) (map g l) = map g (insert_desc h x l).
Proof.
  intros Hx. induction l as [|y l IH]; intros Hl; simpl; [reflexivity|].
  rewrite Hx, (Hl y (or_introl eq_refl)).
  destruct (Qlt_le_dec (h x) (h y)); simpl; [|reflexivity].
  f_equal. apply IH. intros e He. apply Hl. now right.
Qed.

(** Sorting the image of a list is sorting the list, when the keys agree. *)
Lemma sorted_reverse_map {A B : Type} (g : A -> B) (k : B -> Q) (h : A -> Q)
    (l : list A) :
  (forall e, In e l -> k (g e) = h e) ->
  sorted_reverse k (map g l) = map g (sorted_reverse h l).
Proof.
  induction l as [|x l IH]; intros Hl; simpl; [reflexivity|].
  rewrite IH by (intros e He; apply Hl; now right).
  apply insert_desc_map; [apply Hl; now left|].
  intros e He. apply Hl. right. now apply sorted_reverse_In in He.
Qed.

Lemma In_firstn {A : Type} (n : nat) (l : list A) (x : A) :
  In x (firstn n l) -> In x l.
Proof.
  intros H. rewrite <- (firstn_skipn n l). apply in_or_app. now left.
Qed.

Lemma NoDup_firstn {A : Type} (n : nat) (l : list A) :
  NoDup l -> NoDup (firstn n l).
Proof.
  intros H. rewrite <- (firstn_skipn n l) in H. now apply NoDup_app_remove_r in H.
Qed.

Lemma slice_to_nonneg {A : Type} (l : list A) (n : Z) :
  (0 <= n)%Z -> slice_to l n = firstn (Z.to_nat n) l.
Proof. intros H. unfold slice_to. now rewrite (proj2 (Z.leb_le 0 n) H). Qed.

Lemma slice_to_incl {A : Type} (l : list A) (n : Z) (x : A) :
  In x (slice_to l n) -> In x l.
Proof. unfold slice_to. destruct (0 <=? n)%Z; apply In_firstn. Qed.

Lemma slice_to_nil {A : Type} (n : Z) : slice_to (@nil A) n = [].
Proof. unfold slice_to. destruct (0 <=? n)%Z; apply firstn_nil. Qed.

(* ------------------------------------------------------------------ *)
(** * Dictionaries *)

Lemma dict_set_fresh {V : Type} (d : dict V) (k : str) (v : V) :
  ~ In k (dict_keys d) -> dict_set d k v = d ++ [(k, v)].
Proof.
  induction d as [|[k' v'] d IH]; simpl; intros H; [reflexivity|].
  destruct (str_eq_dec k k') as [->|_]; [exfalso; auto|].
  f_equal. apply IH. auto.
Qed.

Lemma dict_get_app_fresh {V : Type} (d d' : dict V) (k : str) (v : V) :
  ~ In k (dict_keys d) -> dict_get (d ++ d') k v = dict_get d' k v.
Proof.
  induction d as [|[k' v'] d IH]; simpl; intros H; [reflexivity|].
  destruct (str_eq_dec k k') as [->|_]; [exfalso; auto|]. apply IH. auto.
Qed.

Lemma dict_keys_app {V : Type} (d d' : dict V) :
  dict_keys (d ++ d') = dict_keys d ++ dict_keys d'.
Proof. apply map_app. Qed.

(** Building a dictionary from entries with distinct keys lists them in
    order. *)
Lemma fold_dict_set_fresh {V : Type} (l acc : dict V) :
  NoDup (dict_keys acc ++ dict_keys l) ->
  fold_left (fun d kv => dict_set d (fst kv) (snd kv)) l acc = acc ++ l.
Proof.
  revert acc. induction l as [|[k v] l IH]; intros acc H; simpl.
  - now rewrite app_nil_r.
  - simpl in H. rewrite dict_set_fresh.
    + rewrite IH; [now rewrite <- app_assoc|].
      rewrite dict_keys_app. simpl. rewrite <- app_assoc. exact H.
    + apply NoDup_remove_2 in H. intros Hk. apply H, in_or_app. now left.
Qed.

Lemma dict_keys_combine {V : Type} (names : list str) (v : list V) :
  List.length v = List.length names -> dict_keys (combine names v) = names.
Proof.
  revert v. induction names as [|n names IH]; intros [|x v] H; simpl in *;
    try reflexivity; try discriminate.
  f_equal. apply IH. lia.
Qed.

Lemma dict_zip_NoDup {V : Type} (names : list str) (v : list V) :
  NoDup names -> List.length v = List.length names ->
  dict_zip names v = combine names v.
Proof.
  intros Hn Hl. unfold dict_zip. rewrite fold_dict_set_fresh; [reflexivity|].
  simpl. now rewrite dict_keys_combine.
Qed.

(** Looking up the features of a fitted matrix gives back its row. *)
Lemma dict_zip_row (names : list str) (v : list Q) :
  NoDup names -> List.length v = List.length names ->
  map (fun t => dict_get (dict_zip names v) t 0) names = v.
Proof.
  intros Hn Hl. rewrite dict_zip_NoDup by assumption.
  revert v Hl. induction Hn as [|n names Hnot Hn IH]; intros [|x v] Hl;
    simpl in *; try reflexivity; try discriminate.
  destruct (str_eq_dec n n) as [_|C]; [|contradiction]. f_equal.
  transitivity (map (fun t => dict_get (combine names v) t 0) names);
    [|apply IH; lia].
  apply map_ext_in. intros t Ht.
  destruct (str_eq_dec t n) as [->|_]; [contradiction | reflexivity].
Qed.

(** Every value of a dictionary built from a row is a value of the row. *)
Lemma dict_set_Forall {V : Type} (P : V -> Prop) (d : dict V) (k : str) (v : V) :
  Forall (fun e => P (snd e)) d -> P v ->
  Forall (fun e => P (snd e)) (dict_set d k v).
Proof.
  induction 1 as [|[k' v'] d H Hd IH]; simpl; intros Hv.
  - constructor; [assumption | constructor].
  - destruct (str_eq_dec k k'); constructor; auto.
Qed.

Lemma dict_get_Forall {V : Type} (P : V -> Prop) (d : dict V) (k : str)
    (default : V) :
  Forall (fun e => P (snd e)) d -> P default -> P (dict_get d k default).
Proof.
  induction 1 as [|[k' v'] d H _ IH]; simpl; intros Hd; [assumption|].
  destruct (str_eq_dec k k'); auto.
Qed.

Lemma dict_zip_Forall {V : Type} (P : V -> Prop) (names : list str)
    (v : list V) (k : str) (default : V) :
  Forall P v -> P default -> P (dict_get (dict_zip names v) k default).
Proof.
  intros Hv Hd. apply dict_get_Forall; [|assumption]. unfold dict_zip.
  assert (Hc : Forall (fun e : str * V => P (snd e)) (combine names v)).
  { rewrite Forall_forall. intros [a b] Hab. apply in_combine_r in Hab.
    rewrite Forall_forall in Hv. now apply Hv. }
  assert (Ha : Forall (fun e : str * V => P (snd e)) []) by constructor.
  revert Ha. generalize (@nil (str * V)).
  induction Hc as [|e l He _ IH]; intros acc Ha; simpl; [assumption|].
  apply IH. now apply dict_set_Forall.
Qed.

(** The loop that selects keywords into a dictionary: over distinct
    features it lists the selected ones in order, each with its value. *)
Lemma fold_select (p : str -> bool) (f : str -> Q) (names : list str)
    (acc : dict Q) :
  NoDup (dict_keys acc ++ names) ->
  fold_left (fun (d : dict Q) word => if p word then dict_set d word (f word)
                                      else d) names acc
  = acc ++ map (fun w => (w, f w)) (filter p names).
Proof.
  revert acc. induction names as [|n names IH]; intros acc H; simpl.
  - now rewrite app_nil_r.
  - assert (Hn : ~ In n (dict_keys acc)).
    { apply NoDup_remove_2 in H. intros Hk. apply H, in_or_app. now left. }
    destruct (p n); simpl.
    + rewrite dict_set_fresh by assumption. rewrite IH.
      * now rewrite <- app_assoc.
      * rewrite dict_keys_app. simpl. rewrite <- app_assoc. exact H.
    + apply IH. now apply NoDup_remove_1 in H.
Qed.

Lemma dict_get_selected (f : str -> Q) (l : list str) (t : str) :
  In t l -> dict_get (map (fun w => (w, f w)) l) t 0 = f t.
Proof.
  induction l as [|n l IH]; simpl; [contradiction|]. intros H.
  destruct (str_eq_dec t n) as [->|Hne]; [reflexivity|].
  destruct H as [->|H]; [contradiction | now apply IH].
Qed.

Lemma dict_keys_selected (f : str -> Q) (l : list str) :
  dict_keys (map (fun w => (w, f w)) l) = l.
Proof. unfold dict_keys. rewrite map_map. simpl. apply map_id. Qed.
(* ------------------------------------------------------------------ *)
(** * The reference scikit-learn keeps the laws *)

Lemma insert_str_perm (x : str) (l : list str) :
  Permutation (insert_str x l) (x :: l).
Proof.
  induction l as [|y l IH]; simpl; [reflexivity|].
  destruct (str_leb x y); [reflexivity|]. rewrite IH. apply perm_swap.
Qed.

Lemma sorted_str_perm (l : list str) : Permutation (sorted_str l) l.
Proof.
  induction l as [|x l IH]; simpl; [reflexivity|].
  rewrite insert_str_perm. now constructor.
Qed.

Lemma limit_features_NoDup (m : nat) (vocabulary terms : list str) :
  NoDup vocabulary -> NoDup (limit_features m vocabulary terms).
Proof.
  intros H. unfold limit_features.
  apply (Permutation_NoDup (Permutation_sym (sorted_str_perm _))).
  apply NoDup_firstn.
  apply (Permutation_NoDup (Permutation_sym (sorted_reverse_perm _ _))).
  exact H.
Qed.

Lemma limit_features_length (m : nat) (vocabulary terms : list str) :
  List.length (limit_features m vocabulary terms)
  = Nat.min m (List.length vocabulary).
Proof.
  unfold limit_features.
  rewrite (Permutation_length (sorted_str_perm _)), length_firstn.
  now rewrite sorted_reverse_length.
Qed.

Lemma nodup_nil (l : list str) : nodup str_eq_dec l = [] -> l = [].
Proof.
  destruct l as [|x l]; [reflexivity|]. intros H.
  assert (Hx : In x (nodup str_eq_dec (x :: l))) by (apply nodup_In; now left).
  rewrite H in Hx. contradiction.
Qed.

Lemma ref_ln_nonneg (x : Q) : 1 <= x -> 0 <= ref_ln x.
Proof.
  intros H. unfold ref_ln.
  assert (Hz : 0 <= (x - 1) / (x + 1)).
  { unfold Qdiv. apply Qmult_le_0_compat; [lra|].
    apply Qinv_le_0_compat. lra. }
  set (z := (x - 1) / (x + 1)) in *.
  assert (Hz2 : 0 <= z * z) by now apply Qmult_le_0_compat.
  set (z2 := z * z) in *.
  assert (H9 : 0 <= z2 * (1 # 9)) by (apply Qmult_le_0_compat; lra).
  assert (H7 : 0 <= z2 * ((1 # 7) + z2 * (1 # 9)))
    by (apply Qmult_le_0_compat; lra).
  assert (H5 : 0 <= z2 * ((1 # 5) + z2 * ((1 # 7) + z2 * (1 # 9))))
    by (apply Qmult_le_0_compat; lra).
  assert (H3 : 0 <= z2 * ((1 # 3) + z2 * ((1 # 5) + z2 * ((1 # 7) + z2 * (1 # 9)))))
    by (apply Qmult_le_0_compat; lra).
  apply Qmult_le_0_compat; [|lra].
  apply Qmult_le_0_compat; lra.
Qed.

Lemma Qnat_nonneg (n : nat) : 0 <= Qnat n.
Proof. unfold Qnat, Qle. simpl. lia. Qed.

Lemma Qnat_S (n : nat) : 1 <= Qnat (S n).
Proof. unfold Qnat, Qle. cbn [Qnum Qden inject_Z]. lia. Qed.

Lemma tf_nonneg (s : bool) (c : nat) : 0 <= tf s c.
Proof.
  destruct c as [|c]; simpl; [apply Qle_refl|]. destruct s.
  - pose proof (ref_ln_nonneg (Qnat_S c)). lra.
  - apply Qnat_nonneg.
Qed.

Lemma idf_nonneg (terms0 terms1 : list str) (t : str) : 0 <= idf terms0 terms1 t.
Proof.
  unfold idf, df.
  destruct (in_dec str_eq_dec t terms0), (in_dec str_eq_dec t terms1);
    vm_compute; discriminate.
Qed.

Lemma ref_sqrt_nonneg (q : Q) : 0 <= ref_sqrt q.
Proof.
  unfold ref_sqrt, Qle. cbn [Qnum Qden].
  pose proof (Z.sqrt_nonneg (Qnum (Qred q) * Z.pos (Qden (Qred q)) * 10 ^ 24)).
  lia.
Qed.

Lemma row_nonneg (s : bool) (terms0 terms1 names terms : list str) :
  nonneg (row s terms0 terms1 names terms).
Proof.
  unfold row. apply normalize_nonneg; [apply ref_sqrt_nonneg|].
  unfold nonneg. apply Forall_map. rewrite Forall_forall. intros t _.
  apply Qmult_le_0_compat; [apply tf_nonneg | apply idf_nonneg].
Qed.

Lemma row_length (s : bool) (terms0 terms1 names terms : list str) :
  List.length (row s terms0 terms1 names terms) = List.length names.
Proof. unfold row, normalize. now rewrite !length_map. Qed.

(** A term that a document lacks has no weight in its row. *)
Lemma row_support (s : bool) (terms0 terms1 names terms : list str)
    (i : nat) (t : str) (x : Q) :
  nth_error names i = Some t ->
  nth_error (row s terms0 terms1 names terms) i = Some x ->
  0 < x -> In t terms.
Proof.
  intros Ht Hx Hpos. unfold row, normalize in Hx.
  rewrite !nth_error_map, Ht in Hx. simpl in Hx. injection Hx as <-.
  destruct (in_dec str_eq_dec t terms) as [Hin|Hnot]; [assumption|exfalso].
  unfold term_count in Hpos.
  rewrite (proj1 (count_occ_not_In str_eq_dec terms t) Hnot) in Hpos.
  simpl in Hpos. revert Hpos. apply Qle_not_lt. unfold Qdiv.
  rewrite !Qmult_0_l. apply Qle_refl.
Qed.

Lemma ref_fit_transform_inv (m : nat) (s : bool) (d0 d1 : str)
    (names : list str) (v0 v1 : list Q) :
  ref_fit_transform m s (d0, d1) = inr (names, v0, v1) ->
  let terms0 := analyzer d0 in
  let terms1 := analyzer d1 in
  names = limit_features m (sorted_str (nodup str_eq_dec (terms0 ++ terms1)))
            (terms0 ++ terms1) /\
  v0 = row s terms0 terms1 names terms0 /\
  v1 = row s terms0 terms1 names terms1.
Proof.
  unfold ref_fit_transform. cbn [fst snd].
  destruct (limit_features m _ _) as [|n l] eqn:E; [discriminate|].
  intros H. injection H as <- <- <-. auto.
Qed.

Lemma ref_fit_transform_raises (m : nat) (s : bool) (d0 d1 : str) :
  (0 < m)%nat ->
  (exists e, ref_fit_transform m s (d0, d1) = inl e) <->
  (analyzer d0 = [] /\ analyzer d1 = []).
Proof.
  intros Hm. unfold ref_fit_transform. cbn [fst snd].
  pose proof (limit_features_length m
    (sorted_str (nodup str_eq_dec (analyzer d0 ++ analyzer d1)))
    (analyzer d0 ++ analyzer d1)) as Hlen.
  rewrite (Permutation_length (sorted_str_perm _)) in Hlen.
  split.
  - intros [e He].
    destruct (limit_features m _ _) as [|n l]; [|discriminate].
    simpl in Hlen.
    assert (Hn : nodup str_eq_dec (analyzer d0 ++ analyzer d1) = []).
    { destruct (nodup str_eq_dec _); [reflexivity | simpl in Hlen; lia]. }
    apply nodup_nil in Hn. now apply app_eq_nil in Hn.
  - intros [E0 E1]. rewrite E0, E1 in *. simpl in Hlen.
    rewrite Nat.min_0_r in Hlen. simpl.
    destruct (limit_features m _ _) as [|n l]; [now exists ValueError|].
    discriminate.
Qed.

Lemma ref_ok : SklearnOk ref_sklearn.
Proof.
  constructor; cbn [build_analyzer fit_transform sqrt ref_sklearn].
  - reflexivity.
  - intros. now apply ref_fit_transform_raises.
  - intros m s d e. unfold ref_fit_transform.
    destruct (limit_features m _ _); [|discriminate]. congruence.
  - intros m s [d0 d1] names v0 v1 H.
    destruct (ref_fit_transform_inv _ _ _ _ H) as (Hn & -> & ->).
    rewrite !row_length. repeat split. rewrite Hn.
    apply limit_features_NoDup.
    apply (Permutation_NoDup (Permutation_sym (sorted_str_perm _))).
    apply NoDup_nodup.
  - intros m s [d0 d1] names v0 v1 H.
    destruct (ref_fit_transform_inv _ _ _ _ H) as (_ & -> & ->).
    split; apply row_nonneg.
  - intros m s d0 d1 names v0 v1 H i t x Ht.
    destruct (ref_fit_transform_inv _ _ _ _ H) as (_ & -> & ->).
    split; intros Hx Hpos; eapply row_support; eauto.
  - apply ref_sqrt_nonneg.
Qed.
(* ------------------------------------------------------------------ *)
(** * The selection loops select the columns *)

Lemma dict_get_NoDup {V : Type} (d : dict V) (e : str * V) (default : V) :
  NoDup (dict_keys d) -> In e d -> dict_get d (fst e) default = snd e.
Proof.
  induction d as [|[k v] d IH]; simpl; intros Hn He; [contradiction|].
  inversion Hn as [|? ? Hk Hn']; subst.
  destruct He as [<-|He]; simpl.
  - destruct (str_eq_dec k k); [reflexivity | contradiction].
  - destruct (str_eq_dec (fst e) k) as [E|_]; [|now apply IH].
    exfalso. apply Hk. rewrite <- E. unfold dict_keys. now apply in_map.
Qed.

(** Sorting the keys of a dictionary by its values ranks its entries. *)
Lemma sorted_keys_ranked (d : dict Q) :
  NoDup (dict_keys d) ->
  sorted_reverse (fun word => dict_get d word 0) (dict_keys d) = ranked d.
Proof.
  intros Hn. unfold ranked, dict_keys. apply sorted_reverse_map.
  intros e He. now apply dict_get_NoDup.
Qed.

Lemma missing_columns_map (rw jw : str -> Q) (names : list str) :
  missing_columns names (map rw names) (map jw names)
  = map (fun w => (w, jw w))
      (filter (fun w => Qeq_bool (rw w) 0 && Qgtb (jw w) 0) names).
Proof.
  unfold missing_columns, columns.
  induction names as [|n names IH]; simpl; [reflexivity|].
  destruct (Qeq_bool (rw n) 0 && Qgtb (jw n) 0); simpl; now rewrite IH.
Qed.

Lemma common_columns_map (rw jw : str -> Q) (names : list str) :
  common_columns names (map rw names) (map jw names)
  = map (fun w => (w, float_add (rw w) (jw w)))
      (filter (fun w => Qgtb (rw w) 0 && Qgtb (jw w) 0) names).
Proof.
  unfold common_columns, columns.
  induction names as [|n names IH]; simpl; [reflexivity|].
  destruct (Qgtb (rw n) 0 && Qgtb (jw n) 0); simpl; now rewrite IH.
Qed.

Lemma selected_NoDup (p : str -> bool) (f : str -> Q) (names : list str) :
  NoDup names ->
  NoDup (dict_keys (map (fun w => (w, f w)) (filter p names))).
Proof. intros H. rewrite dict_keys_selected. now apply NoDup_filter. Qed.

Section Selection.

Variables (names : list str) (v0 v1 : list Q).
Hypothesis names_NoDup : NoDup names.
Hypothesis v0_length : List.length v0 = List.length names.
Hypothesis v1_length : List.length v1 = List.length names.

Lemma missing_loop :
  fold_left
    (fun (missing : dict Q) word =>
       if Qeq_bool (dict_get (dict_zip names v0) word 0) 0
          && Qgtb (dict_get (dict_zip names v1) word 0) 0
       then dict_set missing word (dict_get (dict_zip names v1) word 0)
       else missing)
    names []
  = missing_columns names v0 v1.
Proof.
  pose (rw := fun t => dict_get (dict_zip names v0) t 0).
  pose (jw := fun t => dict_get (dict_zip names v1) t 0).
  change (fold_left
    (fun (missing : dict Q) word =>
       if (fun w => Qeq_bool (rw w) 0 && Qgtb (jw w) 0) word
       then dict_set missing word (jw word) else missing) names []
    = missing_columns names v0 v1).
  rewrite fold_select by (simpl; assumption). simpl.
  rewrite <- missing_columns_map. unfold rw, jw.
  now rewrite !dict_zip_row.
Qed.

Lemma common_loop :
  fold_left
    (fun (common : dict Q) word =>
       if Qgtb (dict_get (dict_zip names v0) word 0) 0
          && Qgtb (dict_get (dict_zip names v1) word 0) 0
       then dict_set common word
              (float_add (dict_get (dict_zip names v0) word 0)
                 (dict_get (dict_zip names v1) word 0))
       else common)
    names []
  = common_columns names v0 v1.
Proof.
  pose (rw := fun t => dict_get (dict_zip names v0) t 0).
  pose (jw := fun t => dict_get (dict_zip names v1) t 0).
  change (fold_left
    (fun (common : dict Q) word =>
       if (fun w => Qgtb (rw w) 0 && Qgtb (jw w) 0) word
       then dict_set common word ((fun w => float_add (rw w) (jw w)) word)
       else common)
    names []
    = common_columns names v0 v1).
  rewrite fold_select by (simpl; assumption). simpl.
  rewrite <- common_columns_map. unfold rw, jw.
  now rewrite !dict_zip_row.
Qed.

Lemma missing_columns_NoDup : NoDup (dict_keys (missing_columns names v0 v1)).
Proof.
  pose proof (missing_columns_map (fun t => dict_get (dict_zip names v0) t 0)
                (fun t => dict_get (dict_zip names v1) t 0) names) as H.
  rewrite !dict_zip_row in H by assumption.
  rewrite H. now apply selected_NoDup.
Qed.

Lemma common_columns_NoDup : NoDup (dict_keys (common_columns names v0 v1)).
Proof.
  pose proof (common_columns_map (fun t => dict_get (dict_zip names v0) t 0)
                (fun t => dict_get (dict_zip names v1) t 0) names) as H.
  rewrite !dict_zip_row in H by assumption.
  rewrite H. now apply selected_NoDup.
Qed.

End Selection.
(* ------------------------------------------------------------------ *)
(** * What a run of each matcher is *)

Lemma not_false (t : str) : t <> [] -> not_ t = false.
Proof. destruct t; [contradiction | reflexivity]. Qed.

Lemma not_true (t : str) : not_ t = true -> t = [].
Proof. destruct t; [reflexivity | discriminate]. Qed.

Lemma guard_false (r j : str) : r <> [] -> j <> [] -> not_ r || not_ j = false.
Proof. intros Hr Hj. now rewrite (not_false Hr), (not_false Hj). Qed.

Lemma guard_true (r j : str) : r = [] \/ j = [] -> not_ r || not_ j = true.
Proof. intros [->| ->]; [reflexivity | apply orb_true_r]. Qed.

Section LexicalRuns.

Variable sk : Sklearn.
Hypothesis ok : SklearnOk sk.

(** Both vectorizers fail on the same documents. *)
Lemma fit_transform_both (m m' : nat) (s s' : bool) (d0 d1 : str) (t : tfidf) :
  (0 < m)%nat -> (0 < m')%nat ->
  fit_transform sk m s (d0, d1) = inr t ->
  exists t', fit_transform sk m' s' (d0, d1) = inr t'.
Proof.
  intros Hm Hm' H.
  destruct (fit_transform sk m' s' (d0, d1)) as [e|t'] eqn:E; [|now exists t'].
  assert (He : exists e, fit_transform sk m' s' (d0, d1) = inl e) by now exists e.
  apply (fit_raises ok s' d0 d1 Hm') in He.
  apply (fit_raises ok s d0 d1 Hm) in He. destruct He as [e' He'].
  congruence.
Qed.

Lemma _extract_top_keywords_run (r j : str) (n : Z) (w : world)
    (names : list str) (v0 v1 : list Q) :
  fit_transform sk 500 false (r, j) = inr (names, v0, v1) ->
  _extract_top_keywords sk r j n w
  = (Return (slice_to (ranked (common_columns names v0 v1)) n),
     log (FitTransform 500 false (r, j)) w).
Proof.
  intros H. destruct (fit_shape ok _ _ _ H) as (L0 & L1 & Hn).
  unfold _extract_top_keywords, bind, vectorize, ret. rewrite H.
  cbv beta iota zeta.
  rewrite (@common_loop names v0 v1 Hn L0 L1).
  rewrite sorted_keys_ranked by now apply common_columns_NoDup.
  reflexivity.
Qed.

Lemma get_missing_keywords_run (r j : str) (n : Z) (w : world)
    (names : list str) (v0 v1 : list Q) :
  fit_transform sk 500 false (_preprocess r, _preprocess j)
    = inr (names, v0, v1) ->
  get_missing_keywords sk r j n w
  = (Return (slice_to (ranked (missing_columns names v0 v1)) n),
     log (FitTransform 500 false (_preprocess r, _preprocess j)) w).
Proof.
  intros H. destruct (fit_shape ok _ _ _ H) as (L0 & L1 & Hn).
  unfold get_missing_keywords, try_except_ValueError, vectorize, ret. rewrite H.
  cbv beta iota zeta.
  rewrite (@missing_loop names v0 v1 Hn L0 L1).
  rewrite sorted_keys_ranked by now apply missing_columns_NoDup.
  reflexivity.
Qed.

Lemma get_missing_keywords_fails (r j : str) (n : Z) (w : world) (e : exn) :
  fit_transform sk 500 false (_preprocess r, _preprocess j) = inl e ->
  get_missing_keywords sk r j n w
  = (Return [], log (FitTransform 500 false (_preprocess r, _preprocess j)) w).
Proof.
  intros H. pose proof (fit_ValueError ok _ _ _ H) as ->.
  unfold get_missing_keywords, try_except_ValueError, vectorize, ret.
  now rewrite H.
Qed.

Lemma calculate_match_score_empty (r j : str) (w : world) :
  r = [] \/ j = [] ->
  calculate_match_score sk r j w = (Return insufficient_result, w).
Proof.
  intros H. unfold calculate_match_score. now rewrite (guard_true H).
Qed.

Lemma calculate_match_score_fails (r j : str) (w : world) (e : exn) :
  r <> [] -> j <> [] ->
  fit_transform sk 1000 true (_preprocess r, _preprocess j) = inl e ->
  calculate_match_score sk r j w
  = (Return no_content_result,
     log (FitTransform 1000 true (_preprocess r, _preprocess j)) w).
Proof.
  intros Hr Hj H. pose proof (fit_ValueError ok _ _ _ H) as ->.
  unfold calculate_match_score. rewrite (guard_false Hr Hj).
  unfold try_except_ValueError, vectorize, ret. now rewrite H.
Qed.

Lemma calculate_match_score_scores (r j : str) (w : world)
    (names : list str) (v0 v1 : list Q) :
  r <> [] -> j <> [] ->
  fit_transform sk 1000 true (_preprocess r, _preprocess j)
    = inr (names, v0, v1) ->
  exists names' u0 u1,
    fit_transform sk 500 false (_preprocess r, _preprocess j)
      = inr (names', u0, u1) /\
    let score :=
      min (round (float_mul (cosine_similarity sk v0 v1) 100) 2) 100 in
    calculate_match_score sk r j w
    = (Return
         {| score := score;
            top_keywords := slice_to (ranked (common_columns names' u0 u1)) 10;
            analysis :=
              if Qle_bool 80 score then excellent_analysis score
              else if Qle_bool 60 score then good_analysis score
              else if Qle_bool 40 score then moderate_analysis score
              else low_analysis score |},
       log (FitTransform 500 false (_preprocess r, _preprocess j))
         (log (FitTransform 1000 true (_preprocess r, _preprocess j)) w)).
Proof.
  intros Hr Hj H.
  destruct (@fit_transform_both 1000 500 true false _ _ _ ltac:(lia) ltac:(lia) H)
    as [[[names' u0] u1] H'].
  exists names', u0, u1. split; [assumption|]. intros sc.
  unfold calculate_match_score. rewrite (guard_false Hr Hj).
  unfold try_except_ValueError, vectorize. rewrite H.
  cbv beta iota zeta. unfold bind.
  erewrite _extract_top_keywords_run; [reflexivity | exact H'].
Qed.

(** The lexical matcher returns a record, whatever the texts. *)
Lemma calculate_match_score_returns (r j : str) (w : world) :
  exists res w', calculate_match_score sk r j w = (Return res, w').
Proof.
  destruct r as [|c r].
  { eexists _, _. apply calculate_match_score_empty. now left. }
  destruct j as [|c' j].
  { eexists _, _. apply calculate_match_score_empty. now right. }
  destruct (fit_transform sk 1000 true
              (_preprocess (c :: r), _preprocess (c' :: j)))
    as [e|[[names v0] v1]] eqn:E.
  - eexists _, _. eapply calculate_match_score_fails; try discriminate; eauto.
  - destruct (@calculate_match_score_scores (c :: r) (c' :: j) w _ _ _
                ltac:(discriminate) ltac:(discriminate) E)
      as (names' & u0 & u1 & _ & H).
    eexists _, _. exact H.
Qed.

End LexicalRuns.

(** The lexical matcher neither reads nor writes the model. *)
Lemma calculate_match_score_model (sk : Sklearn) (r j : str) (w : world) :
  _model (snd (calculate_match_score sk r j w)) = _model w.
Proof.
  unfold calculate_match_score. destruct (not_ r || not_ j); [reflexivity|].
  unfold try_except_ValueError, vectorize.
  destruct (fit_transform sk 1000 true _) as [[]|[[names v0] v1]];
    try reflexivity.
  cbv beta iota zeta. unfold bind, _extract_top_keywords, bind, vectorize.
  destruct (fit_transform sk 500 false _) as [e|[[names' u0] u1]]; reflexivity.
Qed.

(** Its outcome does not depend on the state it runs in. *)
Lemma calculate_match_score_outcome (sk : Sklearn) (r j : str) (w w' : world) :
  fst (calculate_match_score sk r j w) = fst (calculate_match_score sk r j w').
Proof.
  unfold calculate_match_score. destruct (not_ r || not_ j); [reflexivity|].
  unfold try_except_ValueError, vectorize.
  destruct (fit_transform sk 1000 true _) as [[]|[[names v0] v1]];
    try reflexivity.
  cbv beta iota zeta. unfold bind, _extract_top_keywords, bind, vectorize.
  destruct (fit_transform sk 500 false _) as [e|[[names' u0] u1]]; reflexivity.
Qed.

Section SemanticRuns.

Variable sk : Sklearn.
Variable load_SentenceTransformer : exn + SentenceTransformer.

Lemma calculate_semantic_match_empty (r j : str) (w : world) :
  r = [] \/ j = [] ->
  calculate_semantic_match sk load_SentenceTransformer r j w
  = (Return {| semantic_score := 0; embedding_distance := 1 |}, w).
Proof.
  intros H. unfold calculate_semantic_match. now rewrite (guard_true H).
Qed.

Lemma calculate_semantic_match_cached (r j : str) (w : world)
    (model : SentenceTransformer) :
  r <> [] -> j <> [] -> _model w = Some model ->
  calculate_semantic_match sk load_SentenceTransformer r j w
  = (Return (semantic_of sk model r j), log (Encode (r, j)) w).
Proof.
  intros Hr Hj H. unfold calculate_semantic_match.
  rewrite (guard_false Hr Hj). unfold bind, _get_model. now rewrite H.
Qed.

Lemma calculate_semantic_match_loads (r j : str) (w : world)
    (model : SentenceTransformer) :
  r <> [] -> j <> [] -> _model w = None ->
  load_SentenceTransformer = inr model ->
  calculate_semantic_match sk load_SentenceTransformer r j w
  = (Return (semantic_of sk model r j),
     log (Encode (r, j)) (World (Some model) (trace w ++ [LoadModel]))).
Proof.
  intros Hr Hj H Hl. unfold calculate_semantic_match.
  rewrite (guard_false Hr Hj). unfold bind, _get_model. now rewrite H, Hl.
Qed.

Lemma calculate_semantic_match_load_fails (r j : str) (w : world) (e : exn) :
  r <> [] -> j <> [] -> _model w = None ->
  load_SentenceTransformer = inl e ->
  calculate_semantic_match sk load_SentenceTransformer r j w
  = (Raise e, log LoadModel w).
Proof.
  intros Hr Hj H Hl. unfold calculate_semantic_match.
  rewrite (guard_false Hr Hj). unfold bind, _get_model. now rewrite H, Hl.
Qed.

End SemanticRuns.
(* ------------------------------------------------------------------ *)
(** * A document without terms *)

Lemma Qgtb_zero (a : Q) : a == 0 -> Qgtb a 0 = false.
Proof.
  intros H. unfold Qgtb. apply negb_false_iff, Qle_bool_iff. rewrite H.
  apply Qle_refl.
Qed.

Lemma Qgtb_lt (a b : Q) : Qgtb a b = true <-> b < a.
Proof.
  unfold Qgtb. rewrite negb_true_iff. split.
  - intros H. apply Qnot_le_lt. intros C. apply Qle_bool_iff in C. congruence.
  - intros H. destruct (Qle_bool a b) eqn:E; [|reflexivity].
    apply Qle_bool_iff in E. exfalso. revert H. now apply Qle_not_lt.
Qed.

Lemma filter_none {A : Type} (f : A -> bool) (l : list A) :
  (forall x, In x l -> f x = false) -> filter f l = [].
Proof.
  induction l as [|x l IH]; intros H; simpl; [reflexivity|].
  rewrite (H x (or_introl eq_refl)). apply IH. intros y Hy. apply H. now right.
Qed.

Lemma common_columns_zero (names : list str) (v0 v1 : list Q) :
  all_zero v0 -> common_columns names v0 v1 = [].
Proof.
  intros H. unfold common_columns, columns.
  rewrite filter_none; [reflexivity|]. intros [t [a b]] Hin. simpl.
  apply in_combine_r, in_combine_l in Hin.
  unfold all_zero in H. rewrite Forall_forall in H.
  now rewrite (Qgtb_zero (H a Hin)).
Qed.

Section EmptyDocument.

Variable sk : Sklearn.
Hypothesis ok : SklearnOk sk.

(** A document without terms has the zero row. *)
Lemma fit_transform_zero_row (m : nat) (s : bool) (d0 d1 : str)
    (names : list str) (v0 v1 : list Q) :
  build_analyzer sk d0 = [] ->
  fit_transform sk m s (d0, d1) = inr (names, v0, v1) ->
  all_zero v0.
Proof.
  intros He H. destruct (fit_shape ok _ _ _ H) as (L0 & _ & _).
  destruct (fit_nonneg ok _ _ _ H) as (N0 & _).
  unfold all_zero. rewrite Forall_forall. intros x Hx.
  destruct (In_nth_error _ _ Hx) as [i Hi].
  assert (Hlt : (i < List.length names)%nat).
  { rewrite <- L0. apply nth_error_Some. congruence. }
  destruct (nth_error names i) as [t|] eqn:Ht;
    [|apply nth_error_None in Ht; lia].
  unfold nonneg in N0. rewrite Forall_forall in N0. specialize (N0 x Hx).
  destruct (Qlt_le_dec 0 x) as [Hpos|Hle]; [|now apply Qle_antisym].
  destruct (fit_support ok _ _ _ _ H i x Ht) as [Hs _].
  specialize (Hs Hi Hpos). rewrite He in Hs. contradiction.
Qed.

End EmptyDocument.
(* ------------------------------------------------------------------ *)
(** * The hybrid matcher, step by step *)

Section HybridRuns.

Variable sk : Sklearn.
Variable load_SentenceTransformer : exn + SentenceTransformer.

Lemma calculate_hybrid_match_score_raises (r j : str) (w w1 : world) (e : exn) :
  calculate_semantic_match sk load_SentenceTransformer r j w = (Raise e, w1) ->
  calculate_hybrid_match_score sk load_SentenceTransformer r j w
  = (Raise e, w1).
Proof.
  intros H. unfold calculate_hybrid_match_score, bind. now rewrite H.
Qed.

Lemma calculate_hybrid_match_score_lexical_raises (r j : str) (w w1 w2 : world)
    (sem : SemanticResult) (e : exn) :
  calculate_semantic_match sk load_SentenceTransformer r j w = (Return sem, w1) ->
  calculate_match_score sk r j w1 = (Raise e, w2) ->
  calculate_hybrid_match_score sk load_SentenceTransformer r j w
  = (Raise e, w2).
Proof.
  intros H H'. unfold calculate_hybrid_match_score, bind. now rewrite H, H'.
Qed.

Lemma calculate_hybrid_match_score_returns (r j : str) (w w1 w2 : world)
    (sem : SemanticResult) (lex : MatchResult) :
  calculate_semantic_match sk load_SentenceTransformer r j w = (Return sem, w1) ->
  calculate_match_score sk r j w1 = (Return lex, w2) ->
  let h := float_add (float_mul (semantic_score sem) (6 # 10))
             (float_mul (score lex) (4 # 10)) in
  calculate_hybrid_match_score sk load_SentenceTransformer r j w
  = (Return
       {| hybrid_score := round h 2;
          hybrid_semantic_score := round (float_of (semantic_score sem)) 2;
          keyword_score := round (float_of (score lex)) 2;
          hybrid_top_keywords := top_keywords lex;
          hybrid_analysis :=
            if Qle_bool 80 h
            then hybrid_excellent h (semantic_score sem) (score lex)
            else if Qle_bool 60 h
            then hybrid_good h (semantic_score sem) (score lex)
            else if Qle_bool 40 h
            then hybrid_moderate h (semantic_score sem) (score lex)
            else hybrid_low h |},
     w2).
Proof.
  intros H H' h. unfold calculate_hybrid_match_score, bind. now rewrite H, H'.
Qed.

(** What the semantic matcher leaves in the state makes it answer the
    same again. *)
Lemma calculate_semantic_match_again (r j : str) (w w' : world) :
  _model w' = _model (snd (calculate_semantic_match sk load_SentenceTransformer r j w)) ->
  fst (calculate_semantic_match sk load_SentenceTransformer r j w')
  = fst (calculate_semantic_match sk load_SentenceTransformer r j w).
Proof.
  unfold calculate_semantic_match.
  destruct (not_ r || not_ j); [reflexivity|].
  unfold bind, _get_model, encode, ret.
  destruct (_model w) as [m|] eqn:E.
  - cbn [fst snd log _model]. intros ->. now rewrite E.
  - destruct load_SentenceTransformer as [e|m] eqn:L; cbn [fst snd log _model];
      intros ->; rewrite ?E, ?L; reflexivity.
Qed.

End HybridRuns.
Lemma not_false_inv (t : str) : not_ t = false -> t <> [].
Proof. destruct t; [discriminate | discriminate]. Qed.

(* ------------------------------------------------------------------ *)
(** * Empty and blank texts *)

(** C1, counterexample.  A resume of one blank is white space only, yet
    it is not the empty string: the lexical matcher fits both vectorizers
    on it and answers with the low-match record, not with the
    insufficient-text one. *)
Lemma C1_blank_resume_is_vectorized :
  forallb isspace (lit " ") = true /\
  calculate_match_score ref_sklearn (lit " ") (lit "python") w0
  = (Return
       {| score := 0; top_keywords := [];
          analysis := lit "Low match (0.0%). Significant gaps exist between your resume and the job description. Consider tailoring your resume specifically for this role." |},
     World None [FitTransform 1000 true ([], lit "python");
                 FitTransform 500 false ([], lit "python")]).
Proof. split; vm_compute; reflexivity. Qed.

(** C1, as amended.  When the resume text or the job description is the
    empty string, [calculate_match_score] returns the insufficient-text
    record and leaves the state as it found it: no vectorizer is fitted. *)
Theorem C1_empty_text_is_insufficient (sk : Sklearn) (r j : str) (w : world) :
  r = [] \/ j = [] ->
  calculate_match_score sk r j w
  = (Return
       {| score := 0; top_keywords := [];
          analysis := lit "Insufficient text provided for analysis." |},
     w).
Proof. apply calculate_match_score_empty. Qed.

Lemma C1_empty_text_is_insufficient_witness :
  calculate_match_score ref_sklearn [] (lit "python") w0
  = (Return
       {| score := 0; top_keywords := [];
          analysis := lit "Insufficient text provided for analysis." |},
     w0).
Proof.
  apply (@C1_empty_text_is_insufficient ref_sklearn [] (lit "python") w0).
  left. reflexivity.
Defined.

(* ------------------------------------------------------------------ *)
(** * The semantic score *)

(** C2, the code.  The semantic score is capped at 100 and has no floor:
    for a model that embeds the two texts in opposite directions the
    cosine is -1, and [calculate_semantic_match] returns a
    [semantic_score] of -100 (and an [embedding_distance] of 2). *)
Theorem C2_semantic_score_can_be_negative :
  exists res w,
    calculate_semantic_match ref_sklearn (inr opposed_model)
      (lit "chef") (lit "physicist") w0 = (Return res, w) /\
    semantic_score res == - (100) /\
    semantic_score res < 0 /\
    embedding_distance res == 2.
Proof.
  eexists _, _. split; [reflexivity|]. repeat split; vm_compute; reflexivity.
Qed.

(* ------------------------------------------------------------------ *)
(** * Rounding is to the nearest *)

Lemma round_half_even_near (q : Q) :
  Qabs (inject_Z (round_half_even q) - q) <= 1 # 2.
Proof.
  assert (H : Qabs (inject_Z (round_half_even q) - Qred q) <= 1 # 2).
  { unfold round_half_even.
    set (n := Qnum (Qred q)). set (d := Z.pos (Qden (Qred q))).
    assert (Hd : (0 < d)%Z) by (unfold d; lia).
    assert (Hdm : n = (d * (n / d) + n mod d)%Z) by (apply Z.div_mod; lia).
    pose proof (Z.mod_pos_bound n d Hd) as Hm.
    assert (Hq : Qred q = n # Qden (Qred q)) by (now destruct (Qred q)).
    rewrite Hq. apply Qabs_Qle_condition.
    unfold Qle, Qminus, Qplus, Qopp, inject_Z. cbn [Qnum Qden].
    change (Z.pos (1 * Qden (Qred q))) with d.
    change (Z.pos (Qden (Qred q))) with d.
    set (f := (n / d)%Z) in *. set (m := (n mod d)%Z) in *.
    clearbody f m. clear Hq. clearbody n d.
    subst n.
    assert (E0 : ((f * d + - (d * f + m) * 1) * 2 = - (2 * m))%Z) by ring.
    assert (E1 : (((f + 1) * d + - (d * f + m) * 1) * 2 = 2 * d - 2 * m)%Z)
      by ring.
    destruct (2 * m ?= d)%Z eqn:C.
    - apply Z.compare_eq_iff in C.
      destruct (Z.even f); rewrite ?E0, ?E1; clear E0 E1; split; lia.
    - change (2 * m < d)%Z in C. rewrite E0. clear E0 E1. split; lia.
    - apply Z.compare_gt_iff in C. rewrite E1. clear E0 E1. split; lia. }
  now rewrite Qred_correct in H.
Qed.

(** [round(x, 2)] is a number of two decimals, the nearest to [x]. *)
Lemma round_decimals (x : Q) : exists k : Z, round x 2 == k # 100.
Proof.
  exists (round_half_even (x * (100 # 1))). unfold round.
  change (10 ^ Pos.of_nat 2)%positive with 100%positive. apply Qred_correct.
Qed.

Lemma round_near (x : Q) : Qabs (round x 2 - x) <= 1 # 200.
Proof.
  unfold round. change (10 ^ Pos.of_nat 2)%positive with 100%positive.
  rewrite Qred_correct.
  pose proof (round_half_even_near (x * (100 # 1))) as H.
  set (k := round_half_even (x * (100 # 1))) in *.
  apply Qabs_Qle_condition in H. apply Qabs_Qle_condition.
  assert (E : k # 100 == inject_Z k * (1 # 100)).
  { unfold Qeq, inject_Z. cbn [Qnum Qden Qmult]. lia. }
  rewrite E. split; lra.
Qed.

(* ------------------------------------------------------------------ *)
(** * The hybrid score *)

(** The hybrid score is computed on floats: with a semantic score of
    0.125 and a lexical score of 0.0 the weighted sum is the float
    0.07499999999999999722..., which rounds to 0.07 and prints as 0.1,
    where the sum of the reals, 0.075, would round to 0.08. *)
Lemma hybrid_score_rounds_the_float :
  fst (calculate_hybrid_match_score ref_sklearn (inr eighth_model)
         (lit "chef") (lit "physicist") w0)
  = Return
      {| hybrid_score := 7 # 100;
         hybrid_semantic_score := 3 # 25;
         keyword_score := 0;
         hybrid_top_keywords := [];
         hybrid_analysis := lit "Low match (0.1%). Significant gaps exist. Consider tailoring your resume more closely to the job description with relevant keywords and context." |}.
Proof. vm_compute. reflexivity. Qed.

(** C3.  Once the semantic matcher has returned its record, the lexical
    matcher returns one too and [calculate_hybrid_match_score] returns a
    record whose score is [semantic_score * 0.6 + score * 0.4], the
    product and the sum being those of floats, rounded to two decimals:
    a number of two decimals, at most 0.005 away from the weighted sum.
    Its [top_keywords] are those of the lexical record. *)
Theorem C3_hybrid_score_is_weighted (sk : Sklearn)
    (load : exn + SentenceTransformer) (r j : str) (w w1 : world)
    (sem : SemanticResult) :
  SklearnOk sk ->
  calculate_semantic_match sk load r j w = (Return sem, w1) ->
  exists lex w2 res,
    calculate_match_score sk r j w1 = (Return lex, w2) /\
    calculate_hybrid_match_score sk load r j w = (Return res, w2) /\
    let weighted :=
      float_add (float_mul (semantic_score sem) (6 # 10))
        (float_mul (score lex) (4 # 10)) in
    hybrid_score res = round weighted 2 /\
    (exists k : Z, hybrid_score res == k # 100) /\
    Qabs (hybrid_score res - weighted) <= 1 # 200 /\
    hybrid_top_keywords res = top_keywords lex.
Proof.
  intros ok S.
  destruct (calculate_match_score_returns ok r j w1) as (lex & w2 & L).
  exists lex, w2. eexists. split; [exact L|].
  split; [exact (@calculate_hybrid_match_score_returns sk load r j w w1 w2
                    sem lex S L)|].
  cbv zeta. cbn [hybrid_score hybrid_top_keywords].
  split; [reflexivity|]. split; [apply round_decimals|].
  split; [apply round_near | reflexivity].
Qed.

Lemma C3_hybrid_score_is_weighted_witness :
  exists lex w2 res,
    calculate_match_score ref_sklearn (lit "chef") (lit "physicist")
      (log (Encode (lit "chef", lit "physicist"))
         (World (Some eighth_model) [LoadModel])) = (Return lex, w2) /\
    calculate_hybrid_match_score ref_sklearn (inr eighth_model)
      (lit "chef") (lit "physicist") w0 = (Return res, w2) /\
    let weighted :=
      float_add
        (float_mul
           (semantic_score
              (semantic_of ref_sklearn eighth_model (lit "chef")
                 (lit "physicist"))) (6 # 10))
        (float_mul (score lex) (4 # 10)) in
    hybrid_score res = round weighted 2 /\
    (exists k : Z, hybrid_score res == k # 100) /\
    Qabs (hybrid_score res - weighted) <= 1 # 200 /\
    hybrid_top_keywords res = top_keywords lex.
Proof.
  apply (@C3_hybrid_score_is_weighted ref_sklearn (inr eighth_model)
           (lit "chef") (lit "physicist") w0 _ _ ref_ok).
  reflexivity.
Defined.

(* ------------------------------------------------------------------ *)
(** * The lexical score *)

(** C4.  On two non-empty texts [calculate_match_score] returns a record
    whose score lies between 0 and 100; when the vocabulary is not empty,
    so that the vectorizer returns its two rows, the score is their
    cosine similarity times 100 (a product of floats), rounded to two
    decimals and capped at 100. *)
Theorem C4_lexical_score_is_capped_cosine (sk : Sklearn) (r j : str)
    (w : world) :
  SklearnOk sk -> not_ r = false -> not_ j = false ->
  exists res w',
    calculate_match_score sk r j w = (Return res, w') /\
    0 <= score res /\ score res <= 100 /\
    forall names v0 v1,
      fit_transform sk 1000 true (_preprocess r, _preprocess j)
        = inr (names, v0, v1) ->
      score res
      = min (round (float_mul (cosine_similarity sk v0 v1) 100) 2) 100.
Proof.
  intros ok Hr Hj. apply not_false_inv in Hr, Hj.
  destruct (fit_transform sk 1000 true (_preprocess r, _preprocess j))
    as [e|[[names v0] v1]] eqn:E.
  - eexists _, _. split; [exact (@calculate_match_score_fails sk ok r j w e Hr Hj E)|].
    split; [apply Qle_refl|]. split; [discriminate|]. discriminate.
  - destruct (@calculate_match_score_scores sk ok r j w names v0 v1 Hr Hj E)
      as (names' & u0 & u1 & _ & H).
    eexists _, _. split; [exact H|]. cbn [score].
    destruct (fit_nonneg ok _ _ _ E) as [N0 N1].
    split; [|split].
    + apply min_glb; [|discriminate]. apply round_nonneg.
      apply float_mul_nonneg; [|discriminate].
      now apply cosine_similarity_nonneg.
    + apply min_le_r.
    + intros names2 a b Heq. injection Heq as <- <- <-. reflexivity.
Qed.

Lemma C4_lexical_score_is_capped_cosine_witness :
  exists res w',
    calculate_match_score ref_sklearn (lit "Python") (lit "python") w0
      = (Return res, w') /\
    0 <= score res /\ score res <= 100 /\
    forall names v0 v1,
      fit_transform ref_sklearn 1000 true
        (_preprocess (lit "Python"), _preprocess (lit "python"))
        = inr (names, v0, v1) ->
      score res
      = min (round (float_mul (cosine_similarity ref_sklearn v0 v1) 100) 2) 100.
Proof.
  apply (@C4_lexical_score_is_capped_cosine ref_sklearn (lit "Python")
           (lit "python") w0 ref_ok); reflexivity.
Defined.

(* ------------------------------------------------------------------ *)
(** * The tiers of the analysis *)

(** C5, the code.  The hybrid matcher chooses the wording on the score
    before rounding and reports the score after rounding.  With a lexical
    score of 100 and a semantic score of 66.66397..., the hybrid score is
    79.99838...: the record reports 80.0, and its analysis is the good-match
    wording, itself printing 80.0%. *)
Theorem C5_hybrid_reports_80_with_good_wording :
  fst (calculate_hybrid_match_score ref_sklearn (inr slanted_model)
         (lit "Python") (lit "python") w0)
  = Return
      {| hybrid_score := 80;
         hybrid_semantic_score := 3333 # 50;
         keyword_score := 100;
         hybrid_top_keywords := [lit "python"];
         hybrid_analysis := lit "Good match (80.0%). Semantic similarity: 66.7%, Keyword overlap: 100.0%. Consider adding more relevant keywords to improve further." |}.
Proof. vm_compute. reflexivity. Qed.
(* ------------------------------------------------------------------ *)
(** * In the reference scikit-learn the terms of a document weigh *)

Lemma tf_pos (s : bool) (c : nat) : (0 < c)%nat -> 0 < tf s c.
Proof.
  destruct c as [|c]; [lia|]. intros _. simpl. destruct s.
  - pose proof (ref_ln_nonneg (Qnat_S c)). lra.
  - pose proof (Qnat_S c). lra.
Qed.

Lemma idf_pos (terms0 terms1 : list str) (t : str) : 0 < idf terms0 terms1 t.
Proof.
  unfold idf, df.
  destruct (in_dec str_eq_dec t terms0), (in_dec str_eq_dec t terms1);
    vm_compute; reflexivity.
Qed.

Lemma row_norm_pos (sqrt : Q -> Q) (v : list Q) :
  (forall x, 0 <= sqrt x) -> 0 < row_norm sqrt v.
Proof.
  intros H. unfold row_norm.
  destruct (Qeq_bool _ 0) eqn:E; [reflexivity|].
  apply Qeq_bool_neq in E. specialize (H (sum (map (fun x => x * x) v))).
  destruct (Qle_lt_or_eq _ _ H) as [L|L]; [exact L|].
  exfalso. apply E. now symmetry.
Qed.

(** A term that a document has weighs in its row. *)
Lemma row_weighs (s : bool) (terms0 terms1 names terms : list str)
    (i : nat) (t : str) (x : Q) :
  nth_error names i = Some t -> In t terms ->
  nth_error (row s terms0 terms1 names terms) i = Some x -> 0 < x.
Proof.
  intros Ht Hin Hx. unfold row, normalize in Hx.
  rewrite !nth_error_map, Ht in Hx. simpl in Hx. injection Hx as <-.
  unfold Qdiv. apply Qmult_lt_0_compat.
  - apply Qmult_lt_0_compat; [|apply idf_pos].
    apply tf_pos. unfold term_count. now apply count_occ_In.
  - apply Qinv_lt_0_compat. apply row_norm_pos. apply ref_sqrt_nonneg.
Qed.

Lemma ref_weighs : TermsWeigh ref_sklearn.
Proof.
  intros m s d0 d1 names v0 v1 H i t x Ht.
  cbn [build_analyzer fit_transform ref_sklearn] in *.
  destruct (ref_fit_transform_inv _ _ _ _ H) as (_ & -> & ->).
  split; intros Hin Hx; eapply row_weighs; eauto.
Qed.

(* ------------------------------------------------------------------ *)
(** * Missing keywords *)

(** A missing column is a column of the matrix with no weight in the
    resume row and some in the job row. *)
Lemma missing_columns_In (names : list str) (v0 v1 : list Q) (t : str) (b : Q) :
  In (t, b) (missing_columns names v0 v1) <->
  exists a, In (t, (a, b)) (columns names v0 v1) /\ a == 0 /\ 0 < b.
Proof.
  unfold missing_columns. rewrite in_map_iff. split.
  - intros [[t' [a b']] [E H]]. simpl in E. injection E as -> ->.
    apply filter_In in H. destruct H as [H P]. simpl in P.
    apply andb_true_iff in P. destruct P as [Pa Pb].
    exists a. split; [assumption|]. split.
    + now apply Qeq_bool_iff.
    + now apply Qgtb_lt.
  - intros [a (H & Ha & Hb)]. exists (t, (a, b)). split; [reflexivity|].
    apply filter_In. split; [assumption|]. simpl. apply andb_true_iff. split.
    + now apply Qeq_bool_iff.
    + now apply Qgtb_lt.
Qed.

Lemma ranked_In (cols : list (str * Q)) (t : str) :
  In t (ranked cols) <-> exists b, In (t, b) cols.
Proof.
  unfold ranked. rewrite in_map_iff. split.
  - intros [[t' b] [E H]]. simpl in E. subst t'. exists b.
    now apply sorted_reverse_In in H.
  - intros [b H]. exists (t, b). split; [reflexivity|].
    now apply sorted_reverse_In.
Qed.

(** C6.  [get_missing_keywords] returns the missing columns of the fitted
    matrix (those with zero weight in the resume row and positive weight
    in the job row), ranked by job weight, heaviest first, and cut by
    [[:top_n]], which keeps the first [top_n] of them when [top_n] is not
    negative; every term returned is a feature with zero weight in the
    resume row and positive weight in the job row.  When the vocabulary
    is empty it returns the empty list.  As a term of a document weighs in
    its row, no term returned is a term of the normalized resume, and each
    is a term of the normalized job description. *)
Theorem C6_missing_keywords_are_ranked_missing_columns (sk : Sklearn)
    (r j : str) (top_n : Z) (w : world) :
  SklearnOk sk ->
  let docs := (_preprocess r, _preprocess j) in
  match fit_transform sk 500 false docs with
  | inl _ =>
      get_missing_keywords sk r j top_n w
      = (Return [], log (FitTransform 500 false docs) w)
  | inr (names, v0, v1) =>
      let missing := missing_columns names v0 v1 in
      get_missing_keywords sk r j top_n w
      = (Return (slice_to (map fst (sorted_reverse snd missing)) top_n),
         log (FitTransform 500 false docs) w) /\
      Permutation (sorted_reverse snd missing) missing /\
      descending (sorted_reverse snd missing) /\
      ((0 <= top_n)%Z ->
       slice_to (map fst (sorted_reverse snd missing)) top_n
       = firstn (Z.to_nat top_n) (map fst (sorted_reverse snd missing))) /\
      forall t, In t (slice_to (map fst (sorted_reverse snd missing)) top_n) ->
        exists a b, In (t, (a, b)) (columns names v0 v1) /\ a == 0 /\ 0 < b
  end /\
  (TermsWeigh sk ->
   forall kws w',
     get_missing_keywords sk r j top_n w = (Return kws, w') ->
     forall t, In t kws ->
       ~ In t (build_analyzer sk (_preprocess r)) /\
       In t (build_analyzer sk (_preprocess j))).
Proof.
  intros ok docs. split.
  - destruct (fit_transform sk 500 false docs) as [e|[[names v0] v1]] eqn:E.
    + exact (@get_missing_keywords_fails sk ok r j top_n w e E).
    + intros missing. split; [|split; [|split; [|split]]].
      * exact (@get_missing_keywords_run sk ok r j top_n w names v0 v1 E).
      * apply sorted_reverse_perm.
      * apply sorted_reverse_sorted.
      * apply slice_to_nonneg.
      * intros t Ht. apply slice_to_incl in Ht.
        apply (ranked_In missing) in Ht. destruct Ht as [b Hb].
        apply missing_columns_In in Hb. destruct Hb as [a Ha].
        now exists a, b.
  - intros weighs kws w' H t Ht.
    destruct (fit_transform sk 500 false docs) as [e|[[names v0] v1]] eqn:E.
    + rewrite (@get_missing_keywords_fails sk ok r j top_n w e E) in H.
      injection H as <- _. contradiction.
    + rewrite (@get_missing_keywords_run sk ok r j top_n w names v0 v1 E) in H.
      injection H as <- _. apply slice_to_incl in Ht.
      apply ranked_In in Ht. destruct Ht as [b Hb].
      apply missing_columns_In in Hb. destruct Hb as (a & Hc & Ha & Hb).
      apply In_nth_error in Hc. destruct Hc as [i Hi]. unfold columns in Hi.
      assert (Hn : nth_error names i = Some t /\
                   nth_error v0 i = Some a /\ nth_error v1 i = Some b).
      { revert Hi. generalize i. clear.
        revert v0 v1. induction names as [|n names IH];
          intros [|x0 v0] [|x1 v1] [|i]; simpl; try discriminate.
        - intros H. injection H as -> -> ->. auto.
        - apply IH. }
      destruct Hn as (Hn & H0 & H1).
      destruct (fit_support ok _ _ _ _ E i b Hn) as [_ S1].
      destruct (weighs _ _ _ _ _ _ _ E i t a Hn) as [W0 _].
      split; [|now apply S1].
      intros Hin. specialize (W0 Hin H0). rewrite Ha in W0. discriminate W0.
Qed.

(** Evaluates the statement of a hypothesis about concrete texts. *)
Ltac evaluate_in H :=
  let T := type of H in
  let N := eval vm_compute in T in
  let H' := fresh in
  assert (H' : N) by (vm_cast_no_check H); clear H; rename H' into H.

Lemma C6_missing_keywords_are_ranked_missing_columns_witness :
  fst (get_missing_keywords ref_sklearn (lit "python developer")
         (lit "python java developer java sql") 3 w0)
  = Return [lit "java"; lit "developer java"; lit "java developer"] /\
  forall t, In t [lit "java"; lit "developer java"; lit "java developer"] ->
    ~ In t (build_analyzer ref_sklearn (_preprocess (lit "python developer"))) /\
    In t (build_analyzer ref_sklearn
            (_preprocess (lit "python java developer java sql"))).
Proof.
  pose proof (@C6_missing_keywords_are_ranked_missing_columns ref_sklearn
                (lit "python developer") (lit "python java developer java sql")
                3 w0 ref_ok) as H.
  cbv zeta in H. destruct H as [H T]. evaluate_in H. destruct H as [H _].
  assert (E : get_missing_keywords ref_sklearn (lit "python developer")
                (lit "python java developer java sql") 3 w0
              = (Return [lit "java"; lit "developer java"; lit "java developer"],
                 World None
                   [FitTransform 500 false
                      (lit "python developer",
                       lit "python java developer java sql")]))
    by (vm_compute; exact H).
  split; [now rewrite E|]. exact (T ref_weighs _ _ E).
Defined.

(* ------------------------------------------------------------------ *)
(** * Exceptions of the vectorizers *)

(** C7, counterexample.  The handler of [calculate_match_score] is around
    the scoring vectorizer and names [ValueError]: a [ValueError] of the
    vectorizer of the keywords, and a [RuntimeError] of the scoring one,
    leave the matcher as they are. *)
Lemma C7_vectorizer_exceptions_escape :
  calculate_match_score keywords_failing_sklearn (lit "python") (lit "python") w0
  = (Raise ValueError,
     World None [FitTransform 1000 true (lit "python", lit "python");
                 FitTransform 500 false (lit "python", lit "python")]) /\
  calculate_match_score crashing_sklearn (lit "python") (lit "python") w0
  = (Raise RuntimeError,
     World None [FitTransform 1000 true (lit "python", lit "python")]).
Proof. split; vm_compute; reflexivity. Qed.

(** C7, as amended.  [_preprocess] is a total function of its text.  On
    non-empty texts [calculate_match_score] handles one exception, the
    [ValueError] of the scoring vectorizer, with the no-content record;
    any other exception of the scoring vectorizer and every exception of
    the vectorizer of the keywords, which runs outside the handler, is
    raised to the caller; when both vectorizers return, so does the
    matcher.  As scikit-learn raises only [ValueError], and for both
    vectorizers on the same documents, the matcher then never raises. *)
Theorem C7_handler_covers_scoring_ValueError_only (sk : Sklearn) (r j : str)
    (w : world) :
  not_ r = false -> not_ j = false ->
  let docs := (_preprocess r, _preprocess j) in
  let w1 := log (FitTransform 1000 true docs) w in
  let w2 := log (FitTransform 500 false docs) w1 in
  match fit_transform sk 1000 true docs with
  | inl ValueError =>
      calculate_match_score sk r j w
      = (Return
           {| score := 0; top_keywords := [];
              analysis := lit "Could not extract meaningful content for comparison." |},
         w1)
  | inl e => calculate_match_score sk r j w = (Raise e, w1)
  | inr _ =>
      match fit_transform sk 500 false docs with
      | inl e => calculate_match_score sk r j w = (Raise e, w2)
      | inr _ => exists res, calculate_match_score sk r j w = (Return res, w2)
      end
  end /\
  (SklearnOk sk ->
   exists res w', calculate_match_score sk r j w = (Return res, w')).
Proof.
  intros Hr Hj docs w1 w2. split.
  - unfold calculate_match_score. rewrite Hr, Hj. cbn [orb].
    unfold try_except_ValueError, vectorize. fold docs.
    destruct (fit_transform sk 1000 true docs) as [[]|[[names v0] v1]];
      try reflexivity.
    cbv beta iota zeta. unfold bind, _extract_top_keywords, bind, vectorize, ret.
    fold docs.
    destruct (fit_transform sk 500 false docs) as [e|[[names' u0] u1]];
      [reflexivity | eexists; reflexivity].
  - intros ok. apply (calculate_match_score_returns ok).
Qed.

Lemma C7_handler_covers_scoring_ValueError_only_witness :
  calculate_match_score keywords_failing_sklearn (lit "python") (lit "python") w0
  = (Raise ValueError,
     World None [FitTransform 1000 true (lit "python", lit "python");
                 FitTransform 500 false (lit "python", lit "python")]).
Proof.
  pose proof (@C7_handler_covers_scoring_ValueError_only
                keywords_failing_sklearn (lit "python") (lit "python") w0
                eq_refl eq_refl) as H.
  cbv zeta in H. destruct H as [H _]. evaluate_in H.
  vm_compute. exact H.
Defined.

(* ------------------------------------------------------------------ *)
(** * Order of the two engines *)

(** C8, counterexample.  With no model in the process and a loader that
    raises, the hybrid matcher raises the loader's exception after the
    attempt to load: the lexical matcher, which on these texts would fit
    two vectorizers, is not called. *)
Lemma C8_load_failure_skips_lexical :
  calculate_hybrid_match_score ref_sklearn failing_loader
    (lit "python") (lit "python") w0
  = (Raise OSError, World None [LoadModel]) /\
  trace (snd (calculate_match_score ref_sklearn (lit "python") (lit "python") w0))
  = [FitTransform 1000 true (lit "python", lit "python");
     FitTransform 500 false (lit "python", lit "python")].
Proof. split; vm_compute; reflexivity. Qed.

(** C8, as amended.  On non-empty texts [calculate_hybrid_match_score]
    calls the semantic matcher first.  When that raises, which it does when
    the model cannot be loaded, the hybrid matcher raises the same
    exception in the state the semantic matcher left, one attempt to load
    after the initial one: the lexical matcher is not called.  When the
    semantic matcher returns, the lexical matcher is called next: the
    trace goes on with the fit of the scoring vectorizer on the two
    normalized texts. *)
Theorem C8_semantic_first_then_lexical (sk : Sklearn)
    (load : exn + SentenceTransformer) (r j : str) (w : world) :
  not_ r = false -> not_ j = false ->
  match calculate_semantic_match sk load r j w with
  | (Raise e, w1) =>
      load = inl e /\ w1 = log LoadModel w /\
      calculate_hybrid_match_score sk load r j w = (Raise e, w1)
  | (Return sem, w1) =>
      exists rest,
        trace (snd (calculate_hybrid_match_score sk load r j w))
        = trace w1
          ++ FitTransform 1000 true (_preprocess r, _preprocess j) :: rest
  end.
Proof.
  intros Hr Hj.
  destruct (calculate_semantic_match sk load r j w) as [[sem|e] w1] eqn:S.
  - unfold calculate_hybrid_match_score, bind. rewrite S.
    unfold calculate_match_score. rewrite Hr, Hj. cbn [orb].
    unfold try_except_ValueError, vectorize.
    destruct (fit_transform sk 1000 true _) as [[]|[[names v0] v1]].
    + exists []. reflexivity.
    + exists []. reflexivity.
    + exists []. reflexivity.
    + cbv beta iota zeta.
      unfold bind, _extract_top_keywords, bind, vectorize, ret.
      destruct (fit_transform sk 500 false _) as [e|[[names' u0] u1]];
        eexists; cbn [snd trace log]; rewrite <- app_assoc; reflexivity.
  - pose proof (@calculate_hybrid_match_score_raises sk load r j w w1 e S) as H.
    unfold calculate_semantic_match in S. rewrite Hr, Hj in S. cbn [orb] in S.
    unfold bind, _get_model, encode in S.
    destruct (_model w); [discriminate|].
    destruct load as [e'|m]; [|discriminate].
    injection S as <- <-. auto.
Qed.

Lemma C8_semantic_first_then_lexical_witness :
  failing_loader = inl OSError /\ World None [LoadModel] = log LoadModel w0 /\
  calculate_hybrid_match_score ref_sklearn failing_loader
    (lit "python") (lit "python") w0
  = (Raise OSError, World None [LoadModel]).
Proof.
  exact (@C8_semantic_first_then_lexical ref_sklearn failing_loader
           (lit "python") (lit "python") w0 eq_refl eq_refl).
Defined.

(* ------------------------------------------------------------------ *)
(** * Determinism *)

(** C9.  A second call of a matcher on the same texts, in the state the
    first call has left, has the outcome of the first: the same record,
    or the same exception.  The lexical matcher answers the same in every
    state; the hybrid matcher answers the same once the first call has
    settled the model. *)
Theorem C9_second_call_same_outcome (sk : Sklearn)
    (load : exn + SentenceTransformer) (r j : str) (w : world) :
  (forall w', fst (calculate_match_score sk r j w')
              = fst (calculate_match_score sk r j w)) /\
  fst (calculate_hybrid_match_score sk load r j
         (snd (calculate_hybrid_match_score sk load r j w)))
  = fst (calculate_hybrid_match_score sk load r j w).
Proof.
  split; [intros w'; apply calculate_match_score_outcome|].
  destruct (calculate_semantic_match sk load r j w) as [[sem|e] w1] eqn:S.
  - destruct (calculate_match_score sk r j w1) as [ol w2] eqn:L.
    assert (M2 : _model w2 = _model w1).
    { pose proof (calculate_match_score_model sk r j w1) as M.
      now rewrite L in M. }
    destruct (calculate_semantic_match sk load r j w2) as [o3 w3] eqn:S3.
    assert (E3 : o3 = Return sem).
    { pose proof (@calculate_semantic_match_again sk load r j w w2) as A.
      rewrite S, S3 in A. simpl in A. now apply A. }
    subst o3.
    destruct (calculate_match_score sk r j w3) as [ol' w4] eqn:L3.
    assert (E4 : ol' = ol).
    { pose proof (calculate_match_score_outcome sk r j w3 w1) as A.
      now rewrite L, L3 in A. }
    subst ol'.
    destruct ol as [lex|e].
    + rewrite (@calculate_hybrid_match_score_returns sk load r j w w1 w2
                 sem lex S L).
      cbn [snd fst].
      now rewrite (@calculate_hybrid_match_score_returns sk load r j w2 w3 w4
                     sem lex S3 L3).
    + rewrite (@calculate_hybrid_match_score_lexical_raises sk load r j w w1 w2
                 sem e S L).
      cbn [snd fst].
      now rewrite (@calculate_hybrid_match_score_lexical_raises sk load r j
                     w2 w3 w4 sem e S3 L3).
  - rewrite (@calculate_hybrid_match_score_raises sk load r j w w1 e S).
    cbn [snd fst].
    destruct (calculate_semantic_match sk load r j w1) as [o3 w3] eqn:S3.
    assert (E3 : o3 = Raise e).
    { pose proof (@calculate_semantic_match_again sk load r j w w1) as A.
      rewrite S, S3 in A. simpl in A. now apply A. }
    subst o3.
    now rewrite (@calculate_hybrid_match_score_raises sk load r j w1 w3 e S3).
Qed.
(* ------------------------------------------------------------------ *)
(** * A resume that normalizes to nothing *)

(** C10, counterexample.  A resume of two Kelvin signs (U+212A) has no
    ASCII letter or digit, yet [str.lower] turns each sign into the
    letter k: the resume normalizes to the word kk, and against the job
    description kk the score is 100, the word is a top keyword and the
    analysis is the excellent-match one. *)
Lemma C10_kelvin_resume_scores_100 :
  existsb is_ascii_alnum [8490; 8490]%N = false /\
  _preprocess [8490; 8490]%N = lit "kk" /\
  calculate_match_score ref_sklearn [8490; 8490]%N (lit "kk") w0
  = (Return
       {| score := 100; top_keywords := [lit "kk"];
          analysis := lit "Excellent match (100.0%)! Your resume aligns strongly with the job requirements. Fine-tune specific metrics and achievements." |},
     World None [FitTransform 1000 true (lit "kk", lit "kk");
                 FitTransform 500 false (lit "kk", lit "kk")]).
Proof. repeat split; vm_compute; reflexivity. Qed.

(** C10, as amended.  When the resume text is not empty and normalizes to
    the empty string, while the normalized job description has a term at
    least, [calculate_match_score] fits both vectorizers and returns the
    score 0.0, no top keyword and the low-match analysis. *)
Theorem C10_blank_resume_scores_zero (sk : Sklearn) (r j : str) (w : world) :
  SklearnOk sk ->
  not_ r = false -> _preprocess r = [] ->
  build_analyzer sk (_preprocess j) <> [] ->
  calculate_match_score sk r j w
  = (Return
       {| score := 0; top_keywords := [];
          analysis := lit "Low match (0.0%). Significant gaps exist between your resume and the job description. Consider tailoring your resume specifically for this role." |},
     log (FitTransform 500 false ([], _preprocess j))
       (log (FitTransform 1000 true ([], _preprocess j)) w)).
Proof.
  intros ok Hr Hp Hj. apply not_false_inv in Hr.
  assert (Hj' : j <> []).
  { intros ->. apply Hj. apply (analyze_empty ok). }
  destruct (fit_transform sk 1000 true (_preprocess r, _preprocess j))
    as [e|[[names v0] v1]] eqn:E.
  { exfalso. apply Hj.
    assert (He : exists e, fit_transform sk 1000 true
                             (_preprocess r, _preprocess j) = inl e)
      by now exists e.
    now apply (fit_raises ok true (_preprocess r) (_preprocess j)
                 (m:=1000) ltac:(lia)) in He. }
  destruct (@calculate_match_score_scores sk ok r j w names v0 v1 Hr Hj' E)
    as (names' & u0 & u1 & E' & H).
  cbv zeta in H. rewrite H. rewrite Hp in *.
  assert (Z0 : all_zero v0).
  { exact (@fit_transform_zero_row sk ok 1000 true [] (_preprocess j)
             names v0 v1 (analyze_empty ok) E). }
  assert (Z0' : all_zero u0).
  { exact (@fit_transform_zero_row sk ok 500 false [] (_preprocess j)
             names' u0 u1 (analyze_empty ok) E'). }
  rewrite (common_columns_zero names' u1 Z0').
  assert (Es : min (round (float_mul (cosine_similarity sk v0 v1) 100) 2) 100
               = 0).
  { rewrite (float_mul_zero_l 100 (cosine_similarity_zero_l sk v1 Z0)).
    reflexivity. }
  rewrite Es. reflexivity.
Qed.

Lemma C10_blank_resume_scores_zero_witness :
  calculate_match_score ref_sklearn (lit "?!") (lit "python") w0
  = (Return
       {| score := 0; top_keywords := [];
          analysis := lit "Low match (0.0%). Significant gaps exist between your resume and the job description. Consider tailoring your resume specifically for this role." |},
     log (FitTransform 500 false ([], _preprocess (lit "python")))
       (log (FitTransform 1000 true ([], _preprocess (lit "python"))) w0)).
Proof.
  apply (@C10_blank_resume_scores_zero ref_sklearn (lit "?!") (lit "python")
           w0 ref_ok); [reflexivity | reflexivity | vm_compute; discriminate].
Defined.
(* ------------------------------------------------------------------ *)
(** * The normal form of a text *)

Lemma is_az09_not_space (c : N) : is_az09 c = true -> isspace c = false.
Proof.
  unfold is_az09, isspace, between. intros H.
  repeat rewrite orb_true_iff in H. repeat rewrite andb_true_iff in H.
  repeat rewrite N.leb_le in H.
  repeat (apply orb_false_iff; split);
    try (apply andb_false_iff; rewrite !N.leb_gt; lia);
    apply N.eqb_neq; lia.
Qed.

Lemma isspace_32 : isspace 32 = true.
Proof. reflexivity. Qed.

Lemma lower_cp_az09 (c : N) :
  is_az09 c = true \/ c = 32%N -> lower_cp c = [c].
Proof.
  intros H. unfold lower_cp.
  assert (Hc : (48 <= c <= 57 \/ 97 <= c <= 122 \/ c = 32)%N).
  { destruct H as [H| ->]; [|lia]. unfold is_az09, between in H.
    rewrite orb_true_iff, !andb_true_iff, !N.leb_le in H. lia. }
  replace (between 65 90 c) with false
    by (symmetry; unfold between; apply andb_false_iff; rewrite !N.leb_gt; lia).
  replace (between 192 222 c) with false
    by (symmetry; unfold between; apply andb_false_iff; rewrite !N.leb_gt; lia).
  replace (c =? 304)%N with false by (symmetry; apply N.eqb_neq; lia).
  replace (c =? 8490)%N with false by (symmetry; apply N.eqb_neq; lia).
  reflexivity.
Qed.

(** The white space [lstrip] removes, and the text it leaves. *)
Lemma lstrip_split (t : str) :
  exists sp, t = sp ++ lstrip t /\ Forall (fun c => isspace c = true) sp.
Proof.
  induction t as [|c t IH]; simpl.
  - exists []. split; [reflexivity | constructor].
  - destruct (isspace c) eqn:E.
    + destruct IH as (sp & Ht & Hsp). exists (c :: sp). split.
      * simpl. now rewrite <- Ht.
      * now constructor.
    + exists []. split; [reflexivity | constructor].
Qed.

Lemma lstrip_head (t : str) (c : N) (r : str) :
  lstrip t = c :: r -> isspace c = false.
Proof.
  induction t as [|c' t IH]; simpl; [discriminate|].
  destruct (isspace c') eqn:E; [assumption|]. intros H. now injection H as <- _.
Qed.

Lemma lstrip_id (t : str) :
  (forall c r, t = c :: r -> isspace c = false) -> lstrip t = t.
Proof.
  destruct t as [|c t]; [reflexivity|]. intros H. simpl.
  now rewrite (H c t eq_refl).
Qed.

Lemma lstrip_all_space (t : str) :
  Forall (fun c => isspace c = true) t -> lstrip t = [].
Proof. induction 1 as [|c t Hc _ IH]; simpl; [reflexivity | now rewrite Hc]. Qed.

Lemma lstrip_keeps (t : str) (c : N) :
  In c t -> isspace c = false -> In c (lstrip t).
Proof.
  induction t as [|c' t IH]; simpl; [contradiction|]. intros H Hc.
  destruct (isspace c') eqn:E.
  - destruct H as [->|H]; [congruence | now apply IH].
  - exact H.
Qed.

(** [strip] cuts white space off both ends. *)
Lemma strip_split (t : str) :
  exists sp1 sp2,
    t = sp1 ++ strip t ++ sp2 /\
    Forall (fun c => isspace c = true) sp1 /\
    Forall (fun c => isspace c = true) sp2.
Proof.
  unfold strip.
  destruct (lstrip_split t) as (sp1 & H1 & S1).
  destruct (lstrip_split (rev (lstrip t))) as (sp2 & H2 & S2).
  exists sp1, (rev sp2). split; [|split].
  - rewrite <- rev_app_distr, <- H2, rev_involutive. exact H1.
  - exact S1.
  - now apply Forall_rev.
Qed.

Lemma strip_first (t : str) (c : N) (r : str) :
  strip t = c :: r -> isspace c = false.
Proof.
  unfold strip. intros H.
  destruct (lstrip_split (rev (lstrip t))) as (sp & Hs & _).
  apply (f_equal (@rev N)) in Hs. rewrite rev_involutive, rev_app_distr, H in Hs.
  simpl in Hs. now apply lstrip_head in Hs.
Qed.

Lemma strip_last (t : str) (c : N) (r : str) :
  strip t = r ++ [c] -> isspace c = false.
Proof.
  unfold strip. intros H. apply (f_equal (@rev N)) in H.
  rewrite rev_involutive, rev_app_distr in H. simpl in H.
  now apply lstrip_head in H.
Qed.

Lemma strip_id (t : str) :
  (forall c r, t = c :: r -> isspace c = false) ->
  (forall c r, t = r ++ [c] -> isspace c = false) ->
  strip t = t.
Proof.
  intros Hf Hl. unfold strip. rewrite (lstrip_id Hf).
  rewrite lstrip_id; [apply rev_involutive|].
  intros c r H. apply (Hl c (rev r)).
  apply (f_equal (@rev N)) in H. rewrite rev_involutive in H. exact H.
Qed.

Lemma strip_keeps (t : str) (c : N) :
  In c t -> isspace c = false -> In c (strip t).
Proof.
  intros H Hc. unfold strip. apply in_rev. rewrite rev_involutive.
  apply lstrip_keeps; [|exact Hc]. apply in_rev. rewrite rev_involutive.
  now apply lstrip_keeps.
Qed.

Lemma strip_all_space (t : str) :
  Forall (fun c => isspace c = true) t -> strip t = [].
Proof. intros H. unfold strip. now rewrite (lstrip_all_space H). Qed.

Lemma strip_incl (t : str) (c : N) : In c (strip t) -> In c t.
Proof.
  destruct (strip_split t) as (sp1 & sp2 & H & _). intros Hc.
  rewrite H. apply in_or_app. right. apply in_or_app. now left.
Qed.
Lemma sub_non_alnum_class (t : str) :
  Forall (fun c => is_az09 c = true \/ isspace c = true) (sub_non_alnum t).
Proof.
  unfold sub_non_alnum. apply Forall_map. rewrite Forall_forall. intros c _.
  destruct (is_az09 c) eqn:A; simpl; [now left|].
  destruct (isspace c) eqn:S; [now right | right; reflexivity].
Qed.

Lemma sub_non_alnum_id (t : str) :
  Forall (fun c => is_az09 c = true \/ c = 32%N) t -> sub_non_alnum t = t.
Proof.
  intros H. unfold sub_non_alnum. rewrite <- (map_id t) at 2.
  apply map_ext_in. intros c Hc. rewrite Forall_forall in H.
  destruct (H c Hc) as [A| ->]; [now rewrite A | reflexivity].
Qed.

Lemma sub_non_alnum_az09 (t : str) (c : N) :
  In c t -> is_az09 c = true -> In c (sub_non_alnum t).
Proof.
  intros H A. unfold sub_non_alnum. apply in_map_iff. exists c.
  split; [now rewrite A | assumption].
Qed.

Lemma sub_non_alnum_blank (t : str) :
  forallb (fun c => negb (is_az09 c)) t = true ->
  Forall (fun c => isspace c = true) (sub_non_alnum t).
Proof.
  intros H. unfold sub_non_alnum. apply Forall_map. rewrite Forall_forall.
  intros c Hc. rewrite forallb_forall in H. specialize (H c Hc).
  apply negb_true_iff in H. rewrite H. simpl.
  destruct (isspace c) eqn:S; [exact S | reflexivity].
Qed.

Lemma sub_spaces_from_class (b : bool) (t : str) :
  Forall (fun c => is_az09 c = true \/ isspace c = true) t ->
  Forall (fun c => is_az09 c = true \/ c = 32%N) (sub_spaces_from b t).
Proof.
  intros H. revert b. induction H as [|c t Hc _ IH]; intros b; simpl;
    [constructor|].
  destruct (isspace c) eqn:S.
  - destruct b; [apply IH|]. constructor; [now right | apply IH].
  - constructor; [|apply IH]. destruct Hc as [A|A]; [now left | congruence].
Qed.

(** After [\s+] has been replaced, a white space is followed by none. *)
Lemma sub_spaces_from_shape (b : bool) (t : str) :
  (b = true ->
   forall c r, sub_spaces_from b t = c :: r -> isspace c = false) /\
  (forall a x y r, sub_spaces_from b t = a ++ x :: y :: r ->
     isspace x = true -> isspace y = false).
Proof.
  revert b. induction t as [|c t IH]; intros b; simpl.
  - split; [discriminate|]. intros [|? [|? ?]]; discriminate.
  - destruct (isspace c) eqn:S.
    + destruct b.
      * apply IH.
      * split; [discriminate|]. intros [|a0 a] x y r H Hx.
        -- simpl in H. injection H as <- H.
           exact (proj1 (IH true) eq_refl y r H).
        -- simpl in H. injection H as <- H.
           exact (proj2 (IH true) a x y r H Hx).
    + split.
      * intros _ c' r H. now injection H as <- _.
      * intros [|a0 a] x y r H Hx.
        -- simpl in H. injection H as <- H. congruence.
        -- simpl in H. injection H as <- H.
           exact (proj2 (IH false) a x y r H Hx).
Qed.

Lemma sub_spaces_from_id (b : bool) (t : str) :
  Forall (fun c => is_az09 c = true \/ c = 32%N) t ->
  (b = true -> forall r, t <> 32%N :: r) ->
  (forall a r, t <> a ++ 32%N :: 32%N :: r) ->
  sub_spaces_from b t = t.
Proof.
  intros H. revert b. induction H as [|c t Hc _ IH]; intros b Hb Hd; simpl;
    [reflexivity|].
  assert (Hd' : forall a r, t <> a ++ 32%N :: 32%N :: r).
  { intros a r E. apply (Hd (c :: a) r). simpl. now rewrite E. }
  destruct Hc as [A| ->].
  - rewrite (is_az09_not_space _ A). f_equal. apply IH; [discriminate | exact Hd'].
  - rewrite isspace_32. destruct b.
    + exfalso. exact (Hb eq_refl t eq_refl).
    + f_equal. apply IH; [|exact Hd'].
      intros _ r E. apply (Hd [] r). simpl. now rewrite E.
Qed.

Lemma sub_spaces_from_keeps (b : bool) (t : str) (c : N) :
  In c t -> isspace c = false -> In c (sub_spaces_from b t).
Proof.
  revert b. induction t as [|c' t IH]; intros b; simpl; [contradiction|].
  intros H Hc. destruct (isspace c') eqn:S.
  - destruct H as [->|H]; [congruence|].
    destruct b; [now apply IH | right; now apply IH].
  - destruct H as [->|H]; [now left | right; now apply IH].
Qed.

Lemma sub_spaces_from_blank (b : bool) (t : str) :
  Forall (fun c => isspace c = true) t ->
  Forall (fun c => isspace c = true) (sub_spaces_from b t).
Proof.
  intros H. revert b. induction H as [|c t Hc _ IH]; intros b; simpl;
    [constructor|].
  rewrite Hc. destruct b; [apply IH|]. constructor; [reflexivity | apply IH].
Qed.

Lemma lower_id (t : str) :
  Forall (fun c => is_az09 c = true \/ c = 32%N) t -> lower t = t.
Proof.
  induction 1 as [|c t Hc _ IH]; [reflexivity|].
  unfold lower in *. simpl. now rewrite (lower_cp_az09 Hc), IH.
Qed.

(** The result of [_preprocess] is in normal form. *)
Lemma preprocess_normal (t : str) : normal_form (_preprocess t).
Proof.
  unfold _preprocess. set (u := sub_non_alnum (lower t)).
  pose proof (sub_spaces_from_class false (sub_non_alnum_class (lower t))) as C.
  fold u in C. fold (sub_spaces u) in C.
  destruct (sub_spaces_from_shape false u) as [_ D]. fold (sub_spaces u) in D.
  destruct (strip_split (sub_spaces u)) as (sp1 & sp2 & E & _ & _).
  repeat split.
  - rewrite Forall_forall in *. intros c Hc. apply C. now apply strip_incl.
  - intros a r H. rewrite H in E.
    assert (F : isspace 32 = false); [|discriminate F].
    apply (D (sp1 ++ a) 32%N 32%N (r ++ sp2)); [|reflexivity].
    rewrite E. rewrite <- !app_assoc. reflexivity.
  - intros r H. apply strip_first in H. discriminate H.
  - intros r H. apply strip_last in H. discriminate H.
Qed.

(** A text in normal form is left as it is. *)
Lemma preprocess_fixed (t : str) : normal_form t -> _preprocess t = t.
Proof.
  intros (A & D & F & L). unfold _preprocess.
  rewrite (lower_id A), (sub_non_alnum_id A). unfold sub_spaces.
  rewrite (sub_spaces_from_id A); [|discriminate | exact D].
  rewrite Forall_forall in A. apply strip_id.
  - intros c r ->. destruct (A c (or_introl eq_refl)) as [Hc| ->].
    + now apply is_az09_not_space.
    + exfalso. exact (F r eq_refl).
  - intros c r ->.
    destruct (A c (in_or_app r [c] c (or_intror (or_introl eq_refl))))
      as [Hc| ->].
    + now apply is_az09_not_space.
    + exfalso. exact (L r eq_refl).
Qed.

(* ------------------------------------------------------------------ *)
(** * Properties of [_preprocess] *)

(** X1.  Whatever the text, [_preprocess] returns lowercase ASCII letters,
    digits and spaces only, with no two spaces in a row and no space at
    either end. *)
Theorem X1_preprocess_returns_normal_form (t : str) :
  Forall (fun c => is_az09 c = true \/ c = 32%N) (_preprocess t) /\
  (forall a r, _preprocess t <> a ++ 32%N :: 32%N :: r) /\
  (forall r, _preprocess t <> 32%N :: r) /\
  (forall r, _preprocess t <> r ++ [32%N]).
Proof. exact (preprocess_normal t). Qed.

(** X2.  [_preprocess] is idempotent, and the texts it leaves unchanged
    are exactly those in normal form. *)
Theorem X2_preprocess_idempotent (t : str) :
  _preprocess (_preprocess t) = _preprocess t /\
  (_preprocess t = t <-> normal_form t).
Proof.
  split; [apply preprocess_fixed, preprocess_normal|]. split.
  - intros <-. apply preprocess_normal.
  - apply preprocess_fixed.
Qed.

(** X3.  [_preprocess] returns the empty string exactly when the
    lowercased text has no character in [[a-z0-9]]. *)
Theorem X3_preprocess_empty_iff (t : str) :
  _preprocess t = [] <-> forallb (fun c => negb (is_az09 c)) (lower t) = true.
Proof.
  unfold _preprocess. split.
  - intros H. apply forallb_forall. intros c Hc. apply negb_true_iff.
    destruct (is_az09 c) eqn:A; [exfalso | reflexivity].
    pose proof (is_az09_not_space _ A) as S.
    assert (Hin : In c (strip (sub_spaces (sub_non_alnum (lower t))))).
    { apply strip_keeps; [|exact S]. apply sub_spaces_from_keeps; [|exact S].
      now apply sub_non_alnum_az09. }
    rewrite H in Hin. contradiction.
  - intros H. apply strip_all_space. apply sub_spaces_from_blank.
    now apply sub_non_alnum_blank.
Qed.
(* ------------------------------------------------------------------ *)
(** * Columns and terms *)

Lemma nth_error_combine {A B : Type} (l : list A) (l' : list B) (i : nat)
    (x : A) (y : B) :
  nth_error (combine l l') i = Some (x, y) ->
  nth_error l i = Some x /\ nth_error l' i = Some y.
Proof.
  revert l' i. induction l as [|a l IH]; intros [|b l'] [|i]; simpl;
    try discriminate.
  - intros H. injection H as -> ->. auto.
  - apply IH.
Qed.

Lemma columns_nth_error (names : list str) (v0 v1 : list Q) (t : str) (a b : Q) :
  In (t, (a, b)) (columns names v0 v1) ->
  exists i, nth_error names i = Some t /\
            nth_error v0 i = Some a /\ nth_error v1 i = Some b.
Proof.
  intros H. apply In_nth_error in H. destruct H as [i H]. exists i.
  apply nth_error_combine in H. destruct H as [Hn H].
  apply nth_error_combine in H. tauto.
Qed.

Lemma combine_functional {V : Type} (names : list str) (l : list V) (t : str)
    (x y : V) :
  NoDup names -> In (t, x) (combine names l) -> In (t, y) (combine names l) ->
  x = y.
Proof.
  intros Hn. revert l. induction Hn as [|n names Hnot _ IH]; intros [|x0 l];
    simpl; try contradiction.
  intros [Hx|Hx] [Hy|Hy].
  - congruence.
  - injection Hx as -> _. apply in_combine_l in Hy. contradiction.
  - injection Hy as -> _. apply in_combine_l in Hx. contradiction.
  - now apply (IH l).
Qed.

Lemma common_columns_In (names : list str) (v0 v1 : list Q) (t : str) (x : Q) :
  In (t, x) (common_columns names v0 v1) ->
  exists a b, In (t, (a, b)) (columns names v0 v1) /\ 0 < a /\ 0 < b.
Proof.
  unfold common_columns. rewrite in_map_iff.
  intros [[t' [a b]] [E H]]. simpl in E. injection E as -> _.
  apply filter_In in H. destruct H as [H P]. simpl in P.
  apply andb_true_iff in P. destruct P as [Pa Pb].
  exists a, b. split; [assumption|]. split; now apply Qgtb_lt.
Qed.

Lemma ranked_NoDup (cols : list (str * Q)) :
  NoDup (dict_keys cols) -> NoDup (ranked cols).
Proof.
  intros H. unfold ranked.
  apply (Permutation_NoDup (l:=dict_keys cols)); [|exact H].
  unfold dict_keys. apply Permutation_map, Permutation_sym, sorted_reverse_perm.
Qed.

Lemma slice_to_NoDup {A : Type} (l : list A) (n : Z) :
  NoDup l -> NoDup (slice_to l n).
Proof. intros H. unfold slice_to. destruct (0 <=? n)%Z; now apply NoDup_firstn. Qed.

Lemma slice_to_length {A : Type} (l : list A) (n : Z) :
  (0 <= n)%Z -> (List.length (slice_to l n) <= Z.to_nat n)%nat.
Proof. intros H. rewrite (slice_to_nonneg l H). apply firstn_le_length. Qed.

Section Keywords.

Variable sk : Sklearn.
Hypothesis ok : SklearnOk sk.

Variables (m : nat) (s : bool) (d0 d1 : str).
Variables (names : list str) (v0 v1 : list Q).
Hypothesis fitted : fit_transform sk m s (d0, d1) = inr (names, v0, v1).

(** A common column is a term of both documents. *)
Lemma common_terms (t : str) :
  In t (ranked (common_columns names v0 v1)) ->
  In t (build_analyzer sk d0) /\ In t (build_analyzer sk d1).
Proof.
  intros H. apply ranked_In in H. destruct H as [x H].
  apply common_columns_In in H. destruct H as (a & b & H & Ha & Hb).
  apply columns_nth_error in H. destruct H as (i & Hn & H0 & H1).
  destruct (fit_support ok _ _ _ _ fitted i a Hn) as [S0 _].
  destruct (fit_support ok _ _ _ _ fitted i b Hn) as [_ S1].
  split; [now apply S0 | now apply S1].
Qed.

(** A missing column is a term of the second document. *)
Lemma missing_terms (t : str) :
  In t (ranked (missing_columns names v0 v1)) -> In t (build_analyzer sk d1).
Proof.
  intros H. apply ranked_In in H. destruct H as [b H].
  apply missing_columns_In in H. destruct H as (a & H & _ & Hb).
  apply columns_nth_error in H. destruct H as (i & Hn & _ & H1).
  destruct (fit_support ok _ _ _ _ fitted i b Hn) as [_ S1]. now apply S1.
Qed.

(** No column is both common and missing. *)
Lemma common_not_missing (t : str) :
  In t (ranked (common_columns names v0 v1)) ->
  In t (ranked (missing_columns names v0 v1)) -> False.
Proof.
  intros Hc Hm. destruct (fit_shape ok _ _ _ fitted) as (_ & _ & Hn).
  apply ranked_In in Hc. destruct Hc as [x Hc].
  apply common_columns_In in Hc. destruct Hc as (a & b & Hc & Ha & _).
  apply ranked_In in Hm. destruct Hm as [y Hm].
  apply missing_columns_In in Hm. destruct Hm as (a' & Hm & Ha' & _).
  pose proof (@combine_functional _ names (combine v0 v1) t _ _ Hn Hc Hm) as E.
  injection E as -> ->.
  rewrite Ha' in Ha. discriminate Ha.
Qed.

Lemma ranked_common_NoDup : NoDup (ranked (common_columns names v0 v1)).
Proof.
  destruct (fit_shape ok _ _ _ fitted) as (L0 & L1 & Hn).
  apply ranked_NoDup. now apply common_columns_NoDup.
Qed.

Lemma ranked_missing_NoDup : NoDup (ranked (missing_columns names v0 v1)).
Proof.
  destruct (fit_shape ok _ _ _ fitted) as (L0 & L1 & Hn).
  apply ranked_NoDup. now apply missing_columns_NoDup.
Qed.

End Keywords.
(* ------------------------------------------------------------------ *)
(** * Properties of the keyword lists *)

(** X4.  [_extract_top_keywords] has no handler: when its vectorizer
    raises, it raises the same exception.  Otherwise it returns the
    features with positive weight in both rows, ranked by the sum of the
    two weights, heaviest first, and cut by [[:top_n]]: no keyword twice,
    at most [top_n] of them when [top_n] is not negative, each a term of
    both documents. *)
Theorem X4_top_keywords_are_ranked_common_terms (sk : Sklearn) (r j : str)
    (top_n : Z) (w : world) :
  SklearnOk sk ->
  match fit_transform sk 500 false (r, j) with
  | inl e =>
      _extract_top_keywords sk r j top_n w
      = (Raise e, log (FitTransform 500 false (r, j)) w)
  | inr (names, v0, v1) =>
      exists kws,
        _extract_top_keywords sk r j top_n w
        = (Return kws, log (FitTransform 500 false (r, j)) w) /\
        kws = slice_to (map fst (sorted_reverse snd
                                   (common_columns names v0 v1))) top_n /\
        NoDup kws /\
        ((0 <= top_n)%Z -> (List.length kws <= Z.to_nat top_n)%nat) /\
        forall t, In t kws ->
          In t (build_analyzer sk r) /\ In t (build_analyzer sk j)
  end.
Proof.
  intros ok.
  destruct (fit_transform sk 500 false (r, j)) as [e|[[names v0] v1]] eqn:E.
  - unfold _extract_top_keywords, bind, vectorize. now rewrite E.
  - eexists. split; [|split; [reflexivity|split; [|split]]].
    + exact (@_extract_top_keywords_run sk ok r j top_n w names v0 v1 E).
    + apply slice_to_NoDup.
      exact (@ranked_common_NoDup sk ok 500%nat false r j names v0 v1 E).
    + apply slice_to_length.
    + intros t Ht. apply slice_to_incl in Ht.
      exact (@common_terms sk ok 500%nat false r j names v0 v1 E t Ht).
Qed.

Lemma X4_top_keywords_are_ranked_common_terms_witness :
  fst (_extract_top_keywords ref_sklearn (lit "python developer sql")
         (lit "python java developer java sql") 2 w0)
  = Return [lit "developer"; lit "python"].
Proof.
  pose proof (@X4_top_keywords_are_ranked_common_terms ref_sklearn
                (lit "python developer sql")
                (lit "python java developer java sql") 2 w0 ref_ok) as H.
  evaluate_in H. destruct H as (kws & H & Hk & _). subst kws.
  vm_compute. exact (f_equal fst H).
Defined.

(** X5.  [get_missing_keywords] returns a list for every pair of texts:
    no keyword twice, at most [top_n] of them when [top_n] is not
    negative, and each one a term of the normalized job description. *)
Theorem X5_missing_keywords_are_job_terms (sk : Sklearn) (r j : str)
    (top_n : Z) (w : world) :
  SklearnOk sk ->
  exists kws,
    get_missing_keywords sk r j top_n w
    = (Return kws,
       log (FitTransform 500 false (_preprocess r, _preprocess j)) w) /\
    NoDup kws /\
    ((0 <= top_n)%Z -> (List.length kws <= Z.to_nat top_n)%nat) /\
    forall t, In t kws -> In t (build_analyzer sk (_preprocess j)).
Proof.
  intros ok.
  destruct (fit_transform sk 500 false (_preprocess r, _preprocess j))
    as [e|[[names v0] v1]] eqn:E.
  - exists []. split; [|split; [constructor | split]].
    + exact (@get_missing_keywords_fails sk ok r j top_n w e E).
    + intros _. simpl. lia.
    + contradiction.
  - eexists. split; [|split; [|split]].
    + exact (@get_missing_keywords_run sk ok r j top_n w names v0 v1 E).
    + apply slice_to_NoDup.
      exact (@ranked_missing_NoDup sk ok 500%nat false _ _ names v0 v1 E).
    + apply slice_to_length.
    + intros t Ht. apply slice_to_incl in Ht.
      exact (@missing_terms sk ok 500%nat false _ _ names v0 v1 E t Ht).
Qed.

Lemma X5_missing_keywords_are_job_terms_witness :
  exists kws,
    get_missing_keywords ref_sklearn (lit "python developer")
      (lit "python java developer java sql") 3 w0
    = (Return kws,
       log (FitTransform 500 false
              (_preprocess (lit "python developer"),
               _preprocess (lit "python java developer java sql"))) w0) /\
    NoDup kws /\
    ((0 <= 3)%Z -> (List.length kws <= Z.to_nat 3)%nat) /\
    forall t, In t kws ->
      In t (build_analyzer ref_sklearn
              (_preprocess (lit "python java developer java sql"))).
Proof.
  exact (@X5_missing_keywords_are_job_terms ref_sklearn (lit "python developer")
           (lit "python java developer java sql") 3 w0 ref_ok).
Defined.

(** X6.  The record of [calculate_match_score] has at most ten top
    keywords, none twice, and each one is a term of the normalized resume
    and of the normalized job description. *)
Theorem X6_lexical_top_keywords (sk : Sklearn) (r j : str) (w : world) :
  SklearnOk sk ->
  exists res w',
    calculate_match_score sk r j w = (Return res, w') /\
    (List.length (top_keywords res) <= 10)%nat /\
    NoDup (top_keywords res) /\
    forall t, In t (top_keywords res) ->
      In t (build_analyzer sk (_preprocess r)) /\
      In t (build_analyzer sk (_preprocess j)).
Proof.
  intros ok.
  destruct (not_ r) eqn:Hr.
  { eexists _, _. split.
    - apply calculate_match_score_empty. left. now apply not_true.
    - simpl. split; [lia|]. split; [constructor | contradiction]. }
  destruct (not_ j) eqn:Hj.
  { eexists _, _. split.
    - apply calculate_match_score_empty. right. now apply not_true.
    - simpl. split; [lia|]. split; [constructor | contradiction]. }
  apply not_false_inv in Hr, Hj.
  destruct (fit_transform sk 1000 true (_preprocess r, _preprocess j))
    as [e|[[names v0] v1]] eqn:E.
  - eexists _, _. split.
    + exact (@calculate_match_score_fails sk ok r j w e Hr Hj E).
    + simpl. split; [lia|]. split; [constructor | contradiction].
  - destruct (@calculate_match_score_scores sk ok r j w names v0 v1 Hr Hj E)
      as (names' & u0 & u1 & E' & H).
    eexists _, _. split; [exact H|]. cbn [top_keywords]. split; [|split].
    + apply (slice_to_length _ (n:=10)). lia.
    + apply slice_to_NoDup.
      exact (@ranked_common_NoDup sk ok 500%nat false _ _ names' u0 u1 E').
    + intros t Ht. apply slice_to_incl in Ht.
      exact (@common_terms sk ok 500%nat false _ _ names' u0 u1 E' t Ht).
Qed.

Lemma X6_lexical_top_keywords_witness :
  exists res w',
    calculate_match_score ref_sklearn (lit "Python developer")
      (lit "python java developer") w0 = (Return res, w') /\
    (List.length (top_keywords res) <= 10)%nat /\
    NoDup (top_keywords res) /\
    forall t, In t (top_keywords res) ->
      In t (build_analyzer ref_sklearn (_preprocess (lit "Python developer"))) /\
      In t (build_analyzer ref_sklearn
              (_preprocess (lit "python java developer"))).
Proof.
  exact (@X6_lexical_top_keywords ref_sklearn (lit "Python developer")
           (lit "python java developer") w0 ref_ok).
Defined.
(* ------------------------------------------------------------------ *)
(** * Properties of the lexical analysis *)

Lemma Qle_bool_false (a b : Q) : Qle_bool a b = false <-> b < a.
Proof.
  split.
  - intros H. apply Qnot_le_lt. intros C. apply Qle_bool_iff in C. congruence.
  - intros H. destruct (Qle_bool a b) eqn:E; [|reflexivity].
    apply Qle_bool_iff in E. exfalso. revert H. now apply Qle_not_lt.
Qed.

(** X7.  When the two texts are not empty and have a term between them,
    the analysis of [calculate_match_score] is chosen by the score the
    record reports: excellent from 80, good from 60, moderate from 40,
    low below; each wording prints that score. *)
Theorem X7_lexical_analysis_follows_reported_score (sk : Sklearn) (r j : str)
    (w : world) :
  SklearnOk sk -> not_ r = false -> not_ j = false ->
  build_analyzer sk (_preprocess r) <> [] \/
  build_analyzer sk (_preprocess j) <> [] ->
  exists res w',
    calculate_match_score sk r j w = (Return res, w') /\
    (80 <= score res -> analysis res = excellent_analysis (score res)) /\
    (60 <= score res -> score res < 80 ->
     analysis res = good_analysis (score res)) /\
    (40 <= score res -> score res < 60 ->
     analysis res = moderate_analysis (score res)) /\
    (score res < 40 -> analysis res = low_analysis (score res)).
Proof.
  intros ok Hr Hj Hv. apply not_false_inv in Hr, Hj.
  destruct (fit_transform sk 1000 true (_preprocess r, _preprocess j))
    as [e|[[names v0] v1]] eqn:E.
  { exfalso.
    assert (He : exists e, fit_transform sk 1000 true
                             (_preprocess r, _preprocess j) = inl e)
      by now exists e.
    apply (fit_raises ok true (_preprocess r) (_preprocess j)
             (m:=1000) ltac:(lia)) in He.
    destruct He as [H0 H1]. destruct Hv as [Hv|Hv]; contradiction. }
  destruct (@calculate_match_score_scores sk ok r j w names v0 v1 Hr Hj E)
    as (names' & u0 & u1 & _ & H).
  cbv zeta in H. eexists _, _. split; [exact H|]. cbn [score analysis].
  set (sc := min (round (float_mul (cosine_similarity sk v0 v1) 100) 2) 100).
  destruct (Qle_bool 80 sc) eqn:B80.
  { apply Qle_bool_iff in B80. repeat split; intros; try reflexivity;
      exfalso; lra. }
  apply Qle_bool_false in B80.
  destruct (Qle_bool 60 sc) eqn:B60.
  { apply Qle_bool_iff in B60. repeat split; intros; try reflexivity;
      exfalso; lra. }
  apply Qle_bool_false in B60.
  destruct (Qle_bool 40 sc) eqn:B40.
  { apply Qle_bool_iff in B40. repeat split; intros; try reflexivity;
      exfalso; lra. }
  apply Qle_bool_false in B40.
  repeat split; intros; try reflexivity; exfalso; lra.
Qed.

Lemma X7_lexical_analysis_follows_reported_score_witness :
  exists res w',
    calculate_match_score ref_sklearn (lit "Python") (lit "python") w0
    = (Return res, w') /\
    (80 <= score res -> analysis res = excellent_analysis (score res)) /\
    (60 <= score res -> score res < 80 ->
     analysis res = good_analysis (score res)) /\
    (40 <= score res -> score res < 60 ->
     analysis res = moderate_analysis (score res)) /\
    (score res < 40 -> analysis res = low_analysis (score res)).
Proof.
  apply (@X7_lexical_analysis_follows_reported_score ref_sklearn
           (lit "Python") (lit "python") w0 ref_ok);
    [reflexivity | reflexivity | left; vm_compute; discriminate].
Defined.

(* ------------------------------------------------------------------ *)
(** * Properties of the semantic matcher *)

(** X8.  [calculate_semantic_match] raises in one case only: both texts
    are non-empty, no model is loaded yet and loading it fails.  On an
    empty text it returns without asking for the model. *)
Theorem X8_semantic_match_raises_iff (sk : Sklearn)
    (load : exn + SentenceTransformer) (r j : str) (w : world) :
  ((exists e w', calculate_semantic_match sk load r j w = (Raise e, w')) <->
   (not_ r = false /\ not_ j = false /\ _model w = None /\
    exists e, load = inl e)) /\
  (r = [] \/ j = [] ->
   calculate_semantic_match sk load r j w
   = (Return {| semantic_score := 0; embedding_distance := 1 |}, w)).
Proof.
  split; [|apply calculate_semantic_match_empty].
  unfold calculate_semantic_match.
  destruct (not_ r) eqn:Hr; cbn [orb].
  { split; [intros (e & w' & H); discriminate H|]. intros (C & _). discriminate C. }
  destruct (not_ j) eqn:Hj.
  { split; [intros (e & w' & H); discriminate H|].
    intros (_ & C & _). discriminate C. }
  unfold bind, _get_model, encode.
  destruct (_model w) as [m|] eqn:M.
  { split; [intros (e & w' & H); discriminate H|].
    intros (_ & _ & C & _). discriminate C. }
  destruct load as [e|m].
  - split; [|intros _; now exists e, (log LoadModel w)].
    intros _. repeat split. now exists e.
  - split; [intros (e & w' & H); discriminate H|].
    intros (_ & _ & _ & e & C). discriminate C.
Qed.

(** X9.  A semantic score is at most 100, and it is not negative when
    the embeddings of the model in use have no negative component. *)
Theorem X9_semantic_score_bounds (sk : Sklearn)
    (load : exn + SentenceTransformer) (r j : str) (w w' : world)
    (res : SemanticResult) :
  calculate_semantic_match sk load r j w = (Return res, w') ->
  semantic_score res <= 100 /\
  (SklearnOk sk ->
   (forall model t, _model w = Some model \/ load = inr model ->
                    nonneg (model t)) ->
   0 <= semantic_score res).
Proof.
  unfold calculate_semantic_match.
  destruct (not_ r || not_ j).
  { intros H. injection H as <- _. split; [discriminate|]. intros _ _.
    apply Qle_refl. }
  unfold bind, _get_model, encode.
  destruct (_model w) as [m|] eqn:M.
  - intros H. injection H as <- _. cbn [semantic_score fst snd].
    split; [apply min_le_r|]. intros ok Hm.
    apply min_glb; [|discriminate]. apply float_mul_nonneg; [|discriminate].
    apply cosine_similarity_nonneg; auto.
  - destruct load as [e|m]; [discriminate|].
    intros H. injection H as <- _. cbn [semantic_score fst snd].
    split; [apply min_le_r|]. intros ok Hm.
    apply min_glb; [|discriminate]. apply float_mul_nonneg; [|discriminate].
    apply cosine_similarity_nonneg; auto.
Qed.

Lemma X9_semantic_score_bounds_witness :
  semantic_score (semantic_of ref_sklearn positive_model (lit "chef")
                    (lit "cook")) <= 100.
Proof.
  exact (proj1 (@X9_semantic_score_bounds ref_sklearn (inr positive_model)
                  (lit "chef") (lit "cook") w0
                  (log (Encode (lit "chef", lit "cook"))
                     (World (Some positive_model) [LoadModel]))
                  (semantic_of ref_sklearn positive_model (lit "chef")
                     (lit "cook"))
                  eq_refl)).
Defined.

(** X10.  [_get_model] loads the model at most once: a call that returns
    leaves the model in the process, and the next call returns the same
    model without loading.  A failure to load is not kept: the call
    raises that exception with no model in the process, and so does the
    next one, after one more attempt. *)
Theorem X10_model_is_loaded_once (load : exn + SentenceTransformer) (w : world) :
  match _get_model load w with
  | (Return model, w1) =>
      _model w1 = Some model /\
      _get_model load w1 = (Return model, w1) /\
      (_model w = None -> trace w1 = trace w ++ [LoadModel]) /\
      (_model w <> None -> w1 = w)
  | (Raise e, w1) =>
      _model w = None /\ load = inl e /\ w1 = log LoadModel w /\
      _get_model load w1 = (Raise e, log LoadModel w1)
  end.
Proof.
  unfold _get_model. destruct (_model w) as [m|] eqn:M.
  - rewrite M. repeat split; try reflexivity; intros C; discriminate C.
  - destruct load as [e|m]; cbn [_model log].
    + rewrite M. repeat split.
    + repeat split; try reflexivity. intros C. now contradiction C.
Qed.
